(** * Solita CLI handlers: version reconciliation and IDL-generation orchestration

    A shallow embedding of [src/cli/handlers.ts]: the version probe
    ([getAnchorCommandVersion]), the manifest lookup
    ([getAnchorVersionInToml], [parseCargoToml]) and the two orchestrators
    ([handleAnchor] and [handle], the latter reached through [handleShank]).

    Promises are modelled by their final state, asynchronous functions by a
    writer monad over that state which records the calls made across the
    module boundary, and a child process by the list of events it emits. *)

From Stdlib Require Import ZArith String Ascii List Bool Lia DecimalString.
From stdpp Require Import base option gmap strings.

(** ** JavaScript strings *)

Module JsString.

(** [hay.includes(needle)] *)
Fixpoint includes (hay needle : string) : bool :=
  String.prefix needle hay ||
  match hay with
  | EmptyString => false
  | String _ rest => includes rest needle
  end.

(** [`${n}`] for an integer [n] of the size of an exit code: its decimal
    digits, with a leading minus sign when negative. *)
Definition number_to_string (n : Z) : string :=
  NilZero.string_of_int (Z.to_int n).

(** The characters matched by [\d]. *)
Definition is_digit (c : ascii) : bool :=
  let n := nat_of_ascii c in (48 <=? n)%nat && (n <=? 57)%nat.

Fixpoint all_digits (s : string) : bool :=
  match s with
  | EmptyString => true
  | String c rest => is_digit c && all_digits rest
  end.

(** A non-empty run of decimal digits. *)
Definition digits (s : string) : bool :=
  match s with
  | EmptyString => false
  | String _ _ => all_digits s
  end.

End JsString.

(** ** Regular expressions

    The fragment of JavaScript regular expressions that the probe's literal
    [/anchor-cli (\d+\.\d+\.\d+)/] is written in: single characters, the
    class [\d], the greedy quantifier [+] on a character or class,
    concatenation and a capturing group. The matcher is the backtracking
    one: it lists the ways a pattern can match at the start of the input in
    the order a backtracking engine tries them, greedy alternatives first. *)

Module Regex.
Import JsString.

Inductive CharSet :=
| Exactly (c : ascii)   (* a pattern character, or an escaped one as [\.] *)
| DigitClass.           (* [\d] *)

Definition accepts (cs : CharSet) (c : ascii) : bool :=
  match cs with
  | Exactly d => Ascii.eqb c d
  | DigitClass => is_digit c
  end.

Inductive Regex :=
| Empty
| One (cs : CharSet)
| Many1 (cs : CharSet)          (* [cs+], greedy *)
| Seq (r1 r2 : Regex)
| Group (r : Regex).            (* [(r)], the capturing group *)

(** A run of literal characters. *)
Fixpoint lit (s : string) : Regex :=
  match s with
  | EmptyString => Empty
  | String c rest => Seq (One (Exactly c)) (lit rest)
  end.

(** One way of matching at the start of the input: the text matched, the
    input left, and what the capturing group holds. *)
Definition Thread : Type := string * string * option string.

(** The ways [cs+] matches, longest first. *)
Fixpoint many1 (cs : CharSet) (s : string) : list (string * string) :=
  match s with
  | EmptyString => []
  | String c rest =>
      if accepts cs c
      then map (fun '(m, s') => (String c m, s')) (many1 cs rest)
             ++ [(String c "", rest)]
      else []
  end.

Fixpoint run (r : Regex) (s : string) (cap : option string) : list Thread :=
  match r with
  | Empty => [("", s, cap)]
  | One cs =>
      match s with
      | EmptyString => []
      | String c rest => if accepts cs c then [(String c "", rest, cap)] else []
      end
  | Many1 cs => map (fun '(m, s') => (m, s', cap)) (many1 cs s)
  | Seq r1 r2 =>
      flat_map
        (fun '(m1, s1, cap1) =>
           map (fun '(m2, s2, cap2) => (m1 +:+ m2, s2, cap2)) (run r2 s1 cap1))
        (run r1 s cap)
  | Group r' => map (fun '(m, s', _) => (m, s', Some m)) (run r' s cap)
  end.

(** [RegExp.prototype.exec] without flags: the first thread at the leftmost
    position that has one. The result stands for the match array:
    [match[0]] and [match[1]]. *)
Fixpoint exec (r : Regex) (s : string) : option (string * option string) :=
  match run r s None with
  | (m, _, cap) :: _ => Some (m, cap)
  | [] =>
      match s with
      | EmptyString => None
      | String _ rest => exec r rest
      end
  end.

(** The strings a pattern matches. *)
Fixpoint denotes (r : Regex) (m : string) : Prop :=
  match r with
  | Empty => m = ""
  | One cs => exists c, m = String c "" /\ accepts cs c = true
  | Many1 cs =>
      m <> "" /\ forall c, In c (list_ascii_of_string m) -> accepts cs c = true
  | Seq r1 r2 => exists m1 m2, m = m1 +:+ m2 /\ denotes r1 m1 /\ denotes r2 m2
  | Group r' => denotes r' m
  end.

End Regex.

(** ** Values, promises and child processes *)

Import JsString.

(** An [Error] object. [code] is the errno name Node attaches to a system
    error ([undefined] on an ordinary [Error]). *)
Record JsError := {
  name : string;
  message : string;
  code : option string;
}.

(** [new Error(msg)] and [Error(msg)] *)
Definition Error (msg : string) : JsError :=
  {| name := "Error"; message := msg; code := None |}.

(** The [TypeError] of reading the property [key] of [undefined], in the
    words of V8. *)
Definition TypeError_of_undefined (key : string) : JsError :=
  {| name := "TypeError";
     message :=
       "Cannot read properties of undefined (reading '" +:+ key +:+ "')";
     code := None |}.

(** What is thrown, passed to [reject] or handed to a logger. *)
Inductive Value :=
| VString (s : string)
| VError (e : JsError).

(** The final state of a promise. *)
Inductive Settled (A : Type) :=
| Pending
| Fulfilled (a : A)
| Rejected (reason : Value).
Arguments Pending {A}.
Arguments Fulfilled {A} a.
Arguments Rejected {A} reason.

(** [resolve] and [reject] act on a pending promise only. *)
Definition settle {A : Type} (p new : Settled A) : Settled A :=
  match p with
  | Pending => new
  | _ => p
  end.

(** A synchronous call that returns or throws. *)
Inductive Completion (A : Type) :=
| Normal (a : A)
| Throw (reason : Value).
Arguments Normal {A} a.
Arguments Throw {A} reason.

Record SpawnOptions := {
  cwd : option string;
  stdio : option string;
}.

(** The events of a [ChildProcess] and of its output streams, in the order
    they are emitted. An exit code is [null] when a signal ended the
    process. *)
Inductive ChildEvent :=
| StdoutData (buf : string)
| StderrData (buf : string)
| OnError (err : JsError)
| OnExit (code : option Z) (signal : option string)
| OnClose (code : option Z) (signal : option string).

(** The errno values with which Node reports a failed spawn as an ['error']
    event. *)
Inductive SpawnErrno := EACCES | EAGAIN | EMFILE | ENFILE | ENOENT.

Definition errno_name (e : SpawnErrno) : string :=
  match e with
  | EACCES => "EACCES"
  | EAGAIN => "EAGAIN"
  | EMFILE => "EMFILE"
  | ENFILE => "ENFILE"
  | ENOENT => "ENOENT"
  end.

(** The error of that event: [spawn <file> <ERRNO>]. *)
Definition spawn_error (e : SpawnErrno) (file : string) : JsError :=
  {| name := "Error";
     message := "spawn " +:+ file +:+ " " +:+ errno_name e;
     code := Some (errno_name e) |}.

(** A child that could not be started emits ['error'] and then ['close']
    with the negative errno, and never ['exit']. *)
Definition failed_spawn (e : SpawnErrno) (file : string) (errno : Z)
  : list ChildEvent :=
  [OnError (spawn_error e file); OnClose (Some errno) None].

(** A child that did start: no ['error'] and no ['close'] before its final
    ['close']. *)
Definition running (ev : ChildEvent) : bool :=
  match ev with
  | OnError _ | OnClose _ _ => false
  | _ => true
  end.

(** After its exit a child emits stream data and ['close'] only. *)
Definition exited (ev : ChildEvent) : bool :=
  match ev with
  | OnError _ | OnExit _ _ => false
  | _ => true
  end.

(** Everything the child wrote to its standard output. *)
Fixpoint stdout_of (evs : list ChildEvent) : string :=
  match evs with
  | [] => ""
  | StdoutData buf :: rest => buf +:+ stdout_of rest
  | _ :: rest => stdout_of rest
  end.

(** ** The manifest *)

#[local] Set Warnings "-register-all".
Inductive TomlValue :=
| TomlString (s : string)
| TomlInteger (n : Z)
| TomlBoolean (b : bool)
| TomlArray (items : list TomlValue)
| TomlTable (fields : list (string * TomlValue)).

(** [string | { version: string }]: a bare version, or a table with a
    [version] and whatever other keys the manifest gives. *)
Inductive Dependency :=
| DepString (v : string)
| DepTable (version : string) (others : gmap string TomlValue).

(** [CargoToml]. The type declares [dependencies] as always there, but what
    [parse] returns for a manifest without a dependencies table has no such
    property: reading it gives [undefined]. *)
Record CargoToml := {
  dependencies : option (gmap string Dependency);
}.

(** ** Configuration *)

(** Modelled from the spec: the declarations of [SolitaConfig],
    [SolitaConfigAnchor] and [SolitaConfigShank] in [./types] are not among
    the sources; the fields are those of the spec's ProjectConfig, under the
    names the handlers read them by. *)
Record SolitaConfig := {
  programName : string;
  idlDir : string;
  programDir : string;
  sdkDir : string;
  binaryInstallDir : string;
  typeAliases : option (gmap string string);
  serializers : option (gmap string string);
  anchorRemainingAccounts : option bool;
}.

(** [RustbinConfig], as [handleShank] fills it in. *)
Record RustbinConfig := {
  rootDir : string;
  binaryName : string;
  binaryCrateName : string;
  libName : string;
  cargoToml : string;
  dryRun : bool;
}.

(** [RustbinMatchReturn]: [binVersion] may be [undefined]. *)
Record RustbinMatchReturn := {
  fullPathToBinary : string;
  binVersion : option string;
  libVersion : string;
}.

(** [ConfirmInstallArgs] *)
Record ConfirmInstallArgs := {
  confirm_binaryName : string;
  confirm_libVersion : string;
  confirm_libName : string;
  confirm_binVersion : option string;
  confirm_fullPathToBinary : string;
}.

(** What [rustbinMatch] does with the callback it is given, as far as a
    handler can see: it answers, or it first asks the callback to confirm an
    install and goes on from the promise the callback returned. *)
Inductive Installer :=
| Answer (result : Settled RustbinMatchReturn)
| Confirm (args : ConfirmInstallArgs) (next : Settled bool -> Installer).

Definition quote : string := String (ascii_of_nat 34) "".
Definition newline : string := String (ascii_of_nat 10) "".

Section Handlers.

(** The IDL and the formatter options are opaque to the handlers. *)
Context {Idl PrettierOptions : Type}.

(** *** Effects and asynchronous functions *)

(** The calls a handler makes outside this module, as they happen. *)
Inductive Effect :=
| Spawn (command : string) (args : list string) (options : SpawnOptions)
| StdoutWrite (buf : string)
| StderrWrite (buf : string)
| LogError (fmt : string) (args : list Value)
| LogInfo (fmt : string) (args : list Value)
| ReadFile (path : string)
| RustbinMatch (config : RustbinConfig)
| EnhanceIdl (config : SolitaConfig) (binVersion libVersion : string)
| GenerateTypeScriptSDK
    (idl : Idl) (sdkDir : string) (prettierConfig : option PrettierOptions)
    (typeAliases serializers : option (gmap string string))
    (anchorRemainingAccounts : option bool)
| UnhandledRejection (reason : Value).

(** An [async] function, run to the end: the effects it had and the state
    its promise is left in. *)
Definition Async (A : Type) : Type := list Effect * Settled A.

Definition ret {A : Type} (a : A) : Async A := ([], Fulfilled a).

(** [throw] inside an [async] function *)
Definition throw {A : Type} (reason : Value) : Async A := ([], Rejected reason).

(** [await]: the rest of the function runs once the awaited promise is
    fulfilled; a rejection leaves the function, a promise that stays pending
    suspends it for good. *)
Definition bind {A B : Type} (m : Async A) (k : A -> Async B) : Async B :=
  match m with
  | (es, Fulfilled a) => let '(es', r) := k a in (es ++ es', r)
  | (es, Rejected reason) => (es, Rejected reason)
  | (es, Pending) => (es, Pending)
  end.

(** An effect with nothing to wait for. *)
Definition emit (e : Effect) : Async unit := ([e], Fulfilled tt).

(** A call across the module boundary and the promise it returns. *)
Definition call {A : Type} (e : Effect) (p : Settled A) : Async A := ([e], p).

(** [try { body } catch (err) { handler }] *)
Definition try_catch {A : Type} (body : Async A) (handler : Value -> Async A)
  : Async A :=
  match body with
  | (es, Rejected err) => let '(es', r) := handler err in (es ++ es', r)
  | _ => body
  end.

Definition of_completion {A : Type} (c : Completion A) : Async A :=
  match c with
  | Normal a => ret a
  | Throw reason => throw reason
  end.

Notation "x <- m ;; k" := (bind m (fun x => k))
  (at level 100, m at next level, right associativity).
Notation "m ;;; k" := (bind m (fun _ => k))
  (at level 100, right associativity).

(** *** The host: what the handlers import *)

Record Host := {
  (** [child_process.spawn]: the events the started child goes on to emit *)
  spawn : string -> list string -> SpawnOptions -> list ChildEvent;
  (** [fs.readFile(path, 'utf8')] *)
  readFile : string -> Settled string;
  (** [parse] of the [toml] package *)
  parse : string -> Completion CargoToml;
  (** [path.join] *)
  path_join : list string -> string;
  enhanceIdl : SolitaConfig -> string -> string -> Settled Idl;
  generateTypeScriptSDK :
    Idl -> string -> option PrettierOptions ->
    option (gmap string string) -> option (gmap string string) ->
    option bool -> Settled unit;
  (** what [rustbinMatch] does for a config *)
  installer : RustbinConfig -> Installer;
}.

Context (host : Host).

(** An installer run with a callback: each confirmation it asks for is a
    call of the callback, whose effects are the callback's. *)
Fixpoint installing (confirmInstall : ConfirmInstallArgs -> Async bool)
    (i : Installer) : Async RustbinMatchReturn :=
  match i with
  | Answer result => ([], result)
  | Confirm args next =>
      let '(es, confirmed) := confirmInstall args in
      let '(es', result) := installing confirmInstall (next confirmed) in
      (es ++ es', result)
  end.

(** [rustbinMatch(rustbinConfig, confirmInstall)] *)
Definition rustbinMatch (rustbinConfig : RustbinConfig)
    (confirmInstall : ConfirmInstallArgs -> Async bool)
  : Async RustbinMatchReturn :=
  installing confirmInstall (installer host rustbinConfig).

(** *** The version probe *)

(** [\d+\.\d+\.\d+] *)
Definition semver : Regex.Regex :=
  Regex.Seq (Regex.Many1 Regex.DigitClass)
 (Regex.Seq (Regex.One (Regex.Exactly "."))
 (Regex.Seq (Regex.Many1 Regex.DigitClass)
 (Regex.Seq (Regex.One (Regex.Exactly "."))
            (Regex.Many1 Regex.DigitClass)))).

(** [/anchor-cli (\d+\.\d+\.\d+)/] *)
Definition re : Regex.Regex :=
  Regex.Seq (Regex.lit "anchor-cli ") (Regex.Group semver).

(** [`${code}`] for an exit code *)
Definition code_to_string (code : option Z) : string :=
  match code with
  | Some n => number_to_string n
  | None => "null"
  end.

(** The listeners of the probe's child, over [stdoutData] and the promise
    under construction. Group 1 takes part in every match of [re]
    ([PatternFacts.re_group1]), so [match[1]] is a string: the arm for a
    match that leaves the group unset is never taken. *)
Definition probe_on (st : string * Settled string) (ev : ChildEvent)
  : string * Settled string :=
  let '(stdoutData, p) := st in
  match ev with
  | StdoutData data => (stdoutData +:+ data, p)
  | OnError error =>
      if String.eqb (name error) "Error" && includes (message error) "ENOENT"
      then (stdoutData, settle p (Rejected (VString "Anchor is not installed!")))
      else (stdoutData, settle p (Rejected (VError error)))
  | OnClose code _ =>
      match code with
      | Some 0%Z =>
          match Regex.exec re stdoutData with
          | None =>
              (stdoutData,
               settle p (Rejected (VString "Anchor version matching failed")))
          | Some (_, Some group1) => (stdoutData, settle p (Fulfilled group1))
          | Some (_, None) => (stdoutData, p)
          end
      | _ =>
          (stdoutData,
           settle p (Rejected (VError (Error
             ("Process exited with code " +:+ code_to_string code)))))
      end
  | StderrData _ | OnExit _ _ => st
  end.

Definition getAnchorCommandVersion : Async string :=
  let options := {| cwd := None; stdio := Some "pipe" |} in
  ([Spawn "anchor" ["--version"] options],
   snd (fold_left probe_on (spawn host "anchor" ["--version"] options)
          ("", Pending))).

(** *** The manifest lookup *)

Definition parseCargoToml (fullPath : string) : Async (CargoToml * string) :=
  toml <- try_catch
            (call (ReadFile fullPath) (readFile host fullPath))
            (fun err =>
               emit (LogError
                       ("Failed to read Cargo.toml at " +:+ quote +:+ "%s"
                          +:+ quote +:+ newline)
                       [VString fullPath; err]) ;;;
               throw err) ;;
  try_catch
    (parsed <- of_completion (parse host toml) ;;
     ret (parsed, toml))
    (fun err =>
       emit (LogError
               ("Failed to parse Cargo.toml:" +:+ newline +:+ "%s"
                  +:+ newline +:+ "%s")
               [VString toml; err]) ;;;
       throw err).

Definition getAnchorVersionInToml (cargoToml : string) : Async string :=
  result <- parseCargoToml cargoToml ;;
  let parsed := fst result in
  match dependencies parsed with
  | None => throw (VError (TypeError_of_undefined "anchor-lang"))
  | Some table =>
      match table !! "anchor-lang" with
      | None =>
          throw (VError (Error
            ("anchor_lang not found as dependency in " +:+ cargoToml)))
      | Some libVersion =>
          ret (match libVersion with
               | DepString v => v
               | DepTable version _ => version
               end)
      end
  end.

(** *** IDL generation and hand-off

    [handleAnchor] and [handle] end in the same promise, up to the command,
    its arguments and options, the two versions and the remaining-accounts
    flag; [generateIdl] is that promise. *)

(** The [async] listener of ['exit'], up to its closing [resolve()]. The
    arguments of the event, the exit code and the signal, are not among its
    parameters. *)
Definition idlGenerator_exit (config : SolitaConfig)
    (binVersion libVersion : string) (prettierConfig : option PrettierOptions)
    (anchorRemainingAccounts : option bool) : Async unit :=
  emit (LogInfo "IDL written to: %s"
          [VString (path_join host
                      [idlDir config; programName config +:+ ".json"])]) ;;;
  idl <- call (EnhanceIdl config binVersion libVersion)
              (enhanceIdl host config binVersion libVersion) ;;
  call (GenerateTypeScriptSDK idl (sdkDir config) prettierConfig
          (typeAliases config) (serializers config) anchorRemainingAccounts)
       (generateTypeScriptSDK host idl (sdkDir config) prettierConfig
          (typeAliases config) (serializers config) anchorRemainingAccounts).

(** The listeners of the IDL generator and of its streams, over the effects
    so far and the promise under construction. The [async] listener is run
    to its end when ['exit'] arrives, so the writes of later stream events
    are listed after its calls, though they may happen between its
    [await]s. A rejection of the promise the listener returns has no
    handler. *)
Definition idlGenerator_on (config : SolitaConfig)
    (binVersion libVersion : string) (prettierConfig : option PrettierOptions)
    (anchorRemainingAccounts : option bool)
    (st : list Effect * Settled unit) (ev : ChildEvent)
  : list Effect * Settled unit :=
  let '(es, p) := st in
  match ev with
  | OnError err =>
      (es ++ [LogError (programName config +:+ " idl generation failed") []],
       settle p (Rejected (VError err)))
  | OnExit _ _ =>
      match idlGenerator_exit config binVersion libVersion prettierConfig
              anchorRemainingAccounts with
      | (es', Fulfilled _) => (es ++ es', settle p (Fulfilled tt))
      | (es', Rejected reason) => (es ++ es' ++ [UnhandledRejection reason], p)
      | (es', Pending) => (es ++ es', p)
      end
  | StdoutData buf => (es ++ [StdoutWrite buf], p)
  | StderrData buf => (es ++ [StderrWrite buf], p)
  | OnClose _ _ => st
  end.

Definition generateIdl (config : SolitaConfig) (command : string)
    (spawnArgs : list string) (spawnOpts : SpawnOptions)
    (binVersion libVersion : string) (prettierConfig : option PrettierOptions)
    (anchorRemainingAccounts : option bool) : Async unit :=
  fold_left
    (idlGenerator_on config binVersion libVersion prettierConfig
       anchorRemainingAccounts)
    (spawn host command spawnArgs spawnOpts)
    ([Spawn command spawnArgs spawnOpts], Pending).

(** *** The orchestrators *)

Definition handleAnchor (config : SolitaConfig)
    (prettierConfig : option PrettierOptions) : Async unit :=
  let spawnArgs := ["build"; "--idl"; idlDir config] in
  let spawnOpts := {| cwd := Some (programDir config); stdio := None |} in
  let cargoToml := path_join host [programDir config; "Cargo.toml"] in
  anchorCliVersion <- getAnchorCommandVersion ;;
  cargoAnchorVersion <- getAnchorVersionInToml cargoToml ;;
  if negb (String.eqb anchorCliVersion cargoAnchorVersion)
  then throw (VError (Error
         ("Anchor version mismatch! Selected anchor cli: " +:+ anchorCliVersion
            +:+ ", in Cargo.toml: " +:+ cargoAnchorVersion)))
  else generateIdl config "anchor" spawnArgs spawnOpts
         anchorCliVersion cargoAnchorVersion prettierConfig
         (anchorRemainingAccounts config).

Definition confirmAutoMessageLog (a : ConfirmInstallArgs) : Async bool :=
  match confirm_binVersion a with
  | None =>
      emit (LogInfo
              ("No existing version found for " +:+ confirm_binaryName a +:+ ".")
              [])
  | Some binVersion =>
      emit (LogInfo
              ("Version for " +:+ confirm_binaryName a +:+ ": " +:+ binVersion)
              [])
  end ;;;
  emit (LogInfo
          ("Will install version matching " +:+ quote +:+ confirm_libName a
             +:+ ": '" +:+ confirm_libVersion a +:+ "'" +:+ quote +:+ " to "
             +:+ confirm_fullPathToBinary a)
          []) ;;;
  ret true.

Definition handle (config : SolitaConfig) (rustbinConfig : RustbinConfig)
    (spawnArgs : list string) (spawnOpts : SpawnOptions)
    (prettierConfig : option PrettierOptions)
    (anchorRemainingAccounts : option bool) : Async unit :=
  matched <- (emit (RustbinMatch rustbinConfig) ;;;
              rustbinMatch rustbinConfig confirmAutoMessageLog) ;;
  match binVersion matched with
  | None =>
      throw (VError (Error
        ("rustbin was unable to determine installed version "
           +:+ binaryName rustbinConfig +:+ ", it may "
           +:+ "not have been installed correctly.")))
  | Some binVersion =>
      generateIdl config (fullPathToBinary matched) spawnArgs spawnOpts
        binVersion (libVersion matched) prettierConfig anchorRemainingAccounts
  end.

Definition handleShank (config : SolitaConfig)
    (prettierConfig : option PrettierOptions) : Async unit :=
  let spawnArgs :=
    ["idl"; "--out-dir"; idlDir config; "--crate-root"; programDir config] in
  let spawnOpts := {| cwd := Some (programDir config); stdio := None |} in
  let rustbinConfig :=
    {| rootDir := binaryInstallDir config;
       binaryName := "shank";
       binaryCrateName := "shank-cli";
       libName := "shank";
       cargoToml := path_join host [programDir config; "Cargo.toml"];
       dryRun := false |} in
  handle config rustbinConfig spawnArgs spawnOpts prettierConfig (Some false).

End Handlers.

Arguments Effect : clear implicits.
Arguments Async : clear implicits.
Arguments Host : clear implicits.

(** ** Vocabulary of the properties *)

(** [out] holds [anchor-cli ] followed by the version [v], three non-empty
    runs of digits joined by dots. *)
Definition reports_version (out v : string) : Prop :=
  exists pre a b c post,
    out = pre +:+ "anchor-cli " +:+ v +:+ post /\
    v = a +:+ "." +:+ b +:+ "." +:+ c /\
    digits a = true /\ digits b = true /\ digits c = true.





Definition is_spawn {Idl PrettierOptions : Type}
    (e : Effect Idl PrettierOptions) : bool :=
  match e with
  | Spawn _ _ _ => true
  | _ => false
  end.

(** The calls to the two code-generation collaborators among some effects. *)
Definition is_codegen_call {Idl PrettierOptions : Type}
    (e : Effect Idl PrettierOptions) : bool :=
  match e with
  | EnhanceIdl _ _ _ | GenerateTypeScriptSDK _ _ _ _ _ _ => true
  | _ => false
  end.

(** The events of the probe's child: what [spawn] answers to the call in
    [getAnchorCommandVersion]. *)
Definition probe_events {Idl PrettierOptions : Type}
    (host : Host Idl PrettierOptions) : list ChildEvent :=
  spawn host "anchor" ["--version"] {| cwd := None; stdio := Some "pipe" |}.

(** The IDL-generation command of [handleAnchor]. *)
Definition anchor_build_args (config : SolitaConfig) : list string :=
  ["build"; "--idl"; idlDir config].

(** The IDL-generation command of [handleShank]. *)
Definition shank_idl_args (config : SolitaConfig) : list string :=
  ["idl"; "--out-dir"; idlDir config; "--crate-root"; programDir config].

Definition in_program_dir (config : SolitaConfig) : SpawnOptions :=
  {| cwd := Some (programDir config); stdio := None |}.

(** The manifest [handleAnchor] reads. *)
Definition manifest_path {Idl PrettierOptions : Type}
    (host : Host Idl PrettierOptions) (config : SolitaConfig) : string :=
  path_join host [programDir config; "Cargo.toml"].

(** The version a dependency entry declares, in either encoding. *)
Definition version_of (entry : Dependency) : string :=
  match entry with
  | DepString v => v
  | DepTable version _ => version
  end.


(** One of the two collaborators fails with [reason] when the listener of
    ['exit'] calls it: [enhanceIdl], or [generateTypeScriptSDK] on the IDL
    that [enhanceIdl] gave. *)
Definition codegen_fails {Idl PrettierOptions : Type}
    (host : Host Idl PrettierOptions) (config : SolitaConfig)
    (binVersion libVersion : string) (prettierConfig : option PrettierOptions)
    (anchorRemainingAccounts : option bool) (reason : Value) : Prop :=
  enhanceIdl host config binVersion libVersion = Rejected reason \/
  exists idl,
    enhanceIdl host config binVersion libVersion = Fulfilled idl /\
    generateTypeScriptSDK host idl (sdkDir config) prettierConfig
      (typeAliases config) (serializers config) anchorRemainingAccounts
    = Rejected reason.

(** What the pass-through listeners write for some events of the child. *)
Definition passthrough {Idl PrettierOptions : Type} (evs : list ChildEvent)
  : list (Effect Idl PrettierOptions) :=
  flat_map
    (fun ev =>
       match ev with
       | StdoutData buf => [StdoutWrite buf]
       | StderrData buf => [StderrWrite buf]
       | _ => []
       end)
    evs.

(** The rejection of the [async] listener's own promise, if it is rejected. *)
Definition unhandled {Idl PrettierOptions : Type} {A : Type}
    (m : Async Idl PrettierOptions A) : list (Effect Idl PrettierOptions) :=
  match snd m with
  | Rejected reason => [UnhandledRejection reason]
  | _ => []
  end.

(** ** A concrete project and host *)

Module Sample.

Definition config : SolitaConfig :=
  {| programName := "rfq";
     idlDir := "idl";
     programDir := "program";
     sdkDir := "sdk";
     binaryInstallDir := ".crates";
     typeAliases := None;
     serializers := None;
     anchorRemainingAccounts := Some true |}.

Definition manifest (entry : Dependency) : CargoToml :=
  {| dependencies := Some {[ "anchor-lang" := entry ]} |}.


Definition shank : RustbinMatchReturn :=
  {| fullPathToBinary := ".crates/bin/shank";
     binVersion := Some "0.0.12";
     libVersion := "0.0.12" |}.

Definition unprobed : RustbinMatchReturn :=
  {| fullPathToBinary := ".crates/bin/shank";
     binVersion := None;
     libVersion := "0.0.12" |}.

(** A host in which the probe's child emits [probe], the IDL generator
    emits [build], and the other imports answer as given. The IDL is a
    string here and there are no formatter options. *)
Definition host (probe build : list ChildEvent) (parsed : CargoToml)
    (enhanced : Settled string) (generated : Settled unit)
    (matched : RustbinMatchReturn) : Host string unit :=
  {| spawn := fun _ args _ =>
       match args with
       | [_] => probe
       | _ => build
       end;
     readFile := fun _ => Fulfilled "[dependencies]";
     parse := fun _ => Normal parsed;
     path_join := String.concat "/";
     enhanceIdl := fun _ _ _ => enhanced;
     generateTypeScriptSDK := fun _ _ _ _ _ _ => generated;
     installer := fun _ => Answer (Fulfilled matched) |}.

Definition probe_0_27 : list ChildEvent :=
  [StdoutData ("anchor-cli 0.27.0" +:+ newline);
   OnExit (Some 0%Z) None; OnClose (Some 0%Z) None].

Definition build_exit (code : Z) : list ChildEvent :=
  [StdoutData "building"; OnExit (Some code) None; StderrData "done";
   OnClose (Some code) None].

(** Probe and manifest agree on 0.27.0; the generator exits with code 1. *)
Definition agreeing : Host string unit :=
  host probe_0_27 (build_exit 1) (manifest (DepString "0.27.0"))
    (Fulfilled "idl") (Fulfilled tt) shank.

(** The manifest declares 0.26.0 instead. *)
Definition differing : Host string unit :=
  host probe_0_27 (build_exit 1) (manifest (DepString "0.26.0"))
    (Fulfilled "idl") (Fulfilled tt) shank.

(** The manifest gives the dependency as a table with features. *)
Definition with_features : Host string unit :=
  host probe_0_27 (build_exit 1)
    (manifest (DepTable "0.27.0"
                 {[ "features" := TomlArray [TomlString "init-if-needed"] ]}))
    (Fulfilled "idl") (Fulfilled tt) shank.


(** The installer could not tell the version of the binary. *)
Definition not_probed : Host string unit :=
  host probe_0_27 (build_exit 1) (manifest (DepString "0.27.0"))
    (Fulfilled "idl") (Fulfilled tt) unprobed.

(** There is no [anchor] to run the probe with. *)
Definition anchor_missing : Host string unit :=
  host (failed_spawn ENOENT "anchor" (-2)) (build_exit 1)
    (manifest (DepString "0.27.0")) (Fulfilled "idl") (Fulfilled tt) shank.

(** The probe ran, the spawn of the IDL generator fails with ENOENT. *)
Definition build_missing : Host string unit :=
  host probe_0_27 (failed_spawn ENOENT "anchor" (-2))
    (manifest (DepString "0.27.0")) (Fulfilled "idl") (Fulfilled tt) shank.

(** The installer gave a path at which there is nothing to run. *)
Definition shank_missing : Host string unit :=
  host probe_0_27 (failed_spawn ENOENT ".crates/bin/shank" (-2))
    (manifest (DepString "0.27.0")) (Fulfilled "idl") (Fulfilled tt) shank.

(** The probe's child prints no version and closes with code 0. *)
Definition silent_probe : Host string unit :=
  host [StdoutData "anchor 0.27.0"; OnExit (Some 0%Z) None;
        OnClose (Some 0%Z) None]
    (build_exit 1) (manifest (DepString "0.27.0")) (Fulfilled "idl")
    (Fulfilled tt) shank.

(** The probe's child prints a version and closes with code 1. *)
Definition failing_probe : Host string unit :=
  host [StdoutData "anchor-cli 0.27.0"; OnExit (Some 1%Z) None;
        OnClose (Some 1%Z) None]
    (build_exit 1) (manifest (DepString "0.27.0")) (Fulfilled "idl")
    (Fulfilled tt) shank.

(** [generateTypeScriptSDK] rejects. *)
Definition sdk_fails : Host string unit :=
  host probe_0_27 (build_exit 0) (manifest (DepString "0.27.0"))
    (Fulfilled "idl") (Rejected (VString "cannot write sdk")) shank.

End Sample.

(** ** Further vocabulary *)

(** The writes to the handler's own standard output and standard error. *)
Definition is_write {Idl PrettierOptions : Type}
    (e : Effect Idl PrettierOptions) : bool :=
  match e with
  | StdoutWrite _ | StderrWrite _ => true
  | _ => false
  end.

Definition is_exit (ev : ChildEvent) : bool :=
  match ev with
  | OnExit _ _ => true
  | _ => false
  end.

(** The text does not go on with a digit. *)
Definition no_digit_ahead (s : string) : bool :=
  match s with
  | EmptyString => true
  | String c _ => negb (is_digit c)
  end.

(** A pattern whose first match never stops in front of a digit. *)
Definition stops_at_nondigit (r : Regex.Regex) : Prop :=
  forall s cap m s' cap' rest,
    Regex.run r s cap = (m, s', cap') :: rest -> no_digit_ahead s' = true.

(** What the probe's ['error'] listener rejects with. *)
Definition probe_error_reason (error : JsError) : Value :=
  if String.eqb (name error) "Error" && includes (message error) "ENOENT"
  then VString "Anchor is not installed!"
  else VError error.

(** What one event of the IDL generator adds to the effects of a run. *)
Definition idlGenerator_effects {Idl PrettierOptions : Type}
    (host : Host Idl PrettierOptions) (config : SolitaConfig)
    (binVersion libVersion : string) (prettierConfig : option PrettierOptions)
    (anchorRemainingAccounts : option bool) (ev : ChildEvent)
  : list (Effect Idl PrettierOptions) :=
  match ev with
  | OnError _ => [LogError (programName config +:+ " idl generation failed") []]
  | OnExit _ _ =>
      let listener :=
        idlGenerator_exit host config binVersion libVersion prettierConfig
          anchorRemainingAccounts in
      fst listener ++ unhandled listener
  | StdoutData buf => [StdoutWrite buf]
  | StderrData buf => [StderrWrite buf]
  | OnClose _ _ => []
  end.

(** A call to [generateTypeScriptSDK] with the given output directory and
    remaining-accounts flag, and any other effect. *)
Definition generates_into {Idl PrettierOptions : Type} (dir : string)
    (flag : option bool) (e : Effect Idl PrettierOptions) : Prop :=
  match e with
  | GenerateTypeScriptSDK _ sdkDir _ _ _ anchorRemainingAccounts =>
      sdkDir = dir /\ anchorRemainingAccounts = flag
  | _ => True
  end.

(** The [RustbinConfig] that [handleShank] builds. *)
Definition shank_rustbin {Idl PrettierOptions : Type}
    (host : Host Idl PrettierOptions) (config : SolitaConfig) : RustbinConfig :=
  {| rootDir := binaryInstallDir config;
     binaryName := "shank";
     binaryCrateName := "shank-cli";
     libName := "shank";
     cargoToml := path_join host [programDir config; "Cargo.toml"];
     dryRun := false |}.

(** [handleAnchor] has its two versions and they agree. *)
Definition anchor_ready {Idl PrettierOptions : Type}
    (host : Host Idl PrettierOptions) (config : SolitaConfig) (v : string)
  : Prop :=
  snd (getAnchorCommandVersion host) = Fulfilled v /\
  snd (getAnchorVersionInToml host (manifest_path host config)) = Fulfilled v.

(** The installer answered [handle] with a binary and its version. *)
Definition installed_as {Idl PrettierOptions : Type}
    (host : Host Idl PrettierOptions) (rustbinConfig : RustbinConfig)
    (matched : RustbinMatchReturn) (installed : string) : Prop :=
  snd (rustbinMatch host rustbinConfig confirmAutoMessageLog)
    = Fulfilled matched /\
  binVersion matched = Some installed.

(** ** Hosts that fail *)

Module Cases.
Import Sample.

(** As [Sample.host], with the answers of [fs.readFile] and [parse] and the
    installer given as well. *)
Definition host_with (probe build : list ChildEvent) (file : Settled string)
    (parsed : Completion CargoToml) (enhanced : Settled string)
    (generated : Settled unit) (install : Installer)
  : Host string unit :=
  {| spawn := fun _ args _ =>
       match args with
       | [_] => probe
       | _ => build
       end;
     readFile := fun _ => file;
     parse := fun _ => parsed;
     path_join := String.concat "/";
     enhanceIdl := fun _ _ _ => enhanced;
     generateTypeScriptSDK := fun _ _ _ _ _ _ => generated;
     installer := fun _ => install |}.

Definition enoent_file : Value :=
  VError {| name := "Error";
            message := "ENOENT: no such file or directory, open 'program/Cargo.toml'";
            code := Some "ENOENT" |}.

Definition syntax_error : Value :=
  VError {| name := "SyntaxError";
            message := "Expected = but end of input found.";
            code := None |}.

(** The manifest cannot be read. *)
Definition unreadable : Host string unit :=
  host_with probe_0_27 (build_exit 0) (Rejected enoent_file)
    (Normal (manifest (DepString "0.27.0"))) (Fulfilled "idl") (Fulfilled tt)
    (Answer (Fulfilled shank)).

(** The manifest is not TOML. *)
Definition unparsable : Host string unit :=
  host_with probe_0_27 (build_exit 0) (Fulfilled "[dependencies")
    (Throw syntax_error) (Fulfilled "idl") (Fulfilled tt) (Answer (Fulfilled shank)).

(** The installer fails. *)
Definition install_fails : Host string unit :=
  host_with probe_0_27 (build_exit 0) (Fulfilled "[dependencies]")
    (Normal (manifest (DepString "0.27.0"))) (Fulfilled "idl") (Fulfilled tt)
    (Answer (Rejected (VString "cargo install failed"))).

(** The probe's child exits but its streams never close. *)
Definition probe_hangs : Host string unit :=
  host_with [StdoutData "anchor-cli 0.27.0"; OnExit (Some 0%Z) None]
    (build_exit 0) (Fulfilled "[dependencies]")
    (Normal (manifest (DepString "0.27.0"))) (Fulfilled "idl") (Fulfilled tt)
    (Answer (Fulfilled shank)).

(** The version comes in three chunks, with noise on standard error. *)
Definition probe_chunked : Host string unit :=
  host_with [StdoutData "anchor-"; StderrData "warning"; StdoutData "cli 0.2";
             StdoutData ("7.0" +:+ newline); OnExit (Some 0%Z) None;
             OnClose (Some 0%Z) None]
    (build_exit 0) (Fulfilled "[dependencies]")
    (Normal (manifest (DepString "0.27.0"))) (Fulfilled "idl") (Fulfilled tt)
    (Answer (Fulfilled shank)).

(** The IDL generator reports an error, then exits all the same. *)
Definition build_errs_then_exits : Host string unit :=
  host_with probe_0_27
    [StdoutData "building";
     OnError {| name := "Error"; message := "kill EPERM"; code := Some "EPERM" |};
     OnExit (Some 0%Z) None; OnClose (Some 0%Z) None]
    (Fulfilled "[dependencies]")
    (Normal (manifest (DepString "0.27.0"))) (Fulfilled "idl") (Fulfilled tt)
    (Answer (Fulfilled shank)).

(** The IDL generator's streams close but it never exits. *)
Definition build_never_exits : Host string unit :=
  host_with probe_0_27 [StdoutData "building"; StderrData "stuck"]
    (Fulfilled "[dependencies]")
    (Normal (manifest (DepString "0.27.0"))) (Fulfilled "idl") (Fulfilled tt)
    (Answer (Fulfilled shank)).

(** [enhanceIdl] rejects. *)
Definition enhance_fails : Host string unit :=
  host_with probe_0_27 (build_exit 0) (Fulfilled "[dependencies]")
    (Normal (manifest (DepString "0.27.0")))
    (Rejected (VString "idl not found")) (Fulfilled tt) (Answer (Fulfilled shank)).

(** The manifest has other dependencies beside anchor-lang. *)
Definition more_dependencies : Host string unit :=
  host_with probe_0_27 (build_exit 0) (Fulfilled "[dependencies]")
    (Normal {| dependencies :=
                 Some (<[ "solana-program" := DepString "1.14.0" ]>
                         {[ "anchor-lang" := DepString "0.27.0" ]}) |})
    (Fulfilled "idl") (Fulfilled tt) (Answer (Fulfilled shank)).


(** What the installer asks to be confirmed. *)
Definition install_shank : ConfirmInstallArgs :=
  {| confirm_binaryName := "shank";
     confirm_libVersion := "0.0.12";
     confirm_libName := "shank";
     confirm_binVersion := None;
     confirm_fullPathToBinary := ".crates/bin/shank" |}.

(** The installer asks for a confirmation, installs, and cannot tell the
    version of what it installed. *)
Definition asks_then_unprobed : Host string unit :=
  host_with probe_0_27 (build_exit 0) (Fulfilled "[dependencies]")
    (Normal (manifest (DepString "0.27.0"))) (Fulfilled "idl") (Fulfilled tt)
    (Confirm install_shank (fun _ => Answer (Fulfilled unprobed))).

(** The installer asks for a confirmation and then fails. *)
Definition asks_then_fails : Host string unit :=
  host_with probe_0_27 (build_exit 0) (Fulfilled "[dependencies]")
    (Normal (manifest (DepString "0.27.0"))) (Fulfilled "idl") (Fulfilled tt)
    (Confirm install_shank
       (fun _ => Answer (Rejected (VString "cargo install failed")))).




End Cases.

(** ** String facts *)

Module JsStringFacts.
Import JsString.

Lemma append_cons (c : ascii) (s t : string) :
  String c s +:+ t = String c (s +:+ t).
Proof. reflexivity. Qed.

Lemma append_nil_l (s : string) : "" +:+ s = s.
Proof. reflexivity. Qed.

Lemma append_nil_r (s : string) : s +:+ "" = s.
Proof.
  induction s as [|c s IH]; [reflexivity | now rewrite append_cons, IH].
Qed.

Lemma append_assoc (a b c : string) : (a +:+ b) +:+ c = a +:+ b +:+ c.
Proof.
  induction a as [|x a IH]; [reflexivity | now rewrite !append_cons, IH].
Qed.

Lemma prefix_append (n rest : string) : String.prefix n (n +:+ rest) = true.
Proof.
  induction n as [|c n IH].
  - now destruct rest.
  - rewrite append_cons. simpl.
    destruct (ascii_dec c c) as [_|Hne]; [exact IH | now destruct Hne].
Qed.

Lemma includes_eq (hay needle : string) :
  includes hay needle =
  String.prefix needle hay ||
  match hay with
  | EmptyString => false
  | String _ rest => includes rest needle
  end.
Proof. destruct hay; reflexivity. Qed.

Lemma includes_here (n rest : string) : includes (n +:+ rest) n = true.
Proof. now rewrite includes_eq, prefix_append. Qed.

Lemma includes_append (pre n post : string) :
  includes (pre +:+ n +:+ post) n = true.
Proof.
  induction pre as [|c pre IH].
  - rewrite append_nil_l. apply includes_here.
  - rewrite append_cons, includes_eq, IH. apply orb_true_r.
Qed.

Lemma includes_suffix (pre n : string) : includes (pre +:+ n) n = true.
Proof. rewrite <- (append_nil_r n) at 1. apply includes_append. Qed.

Lemma append_inv_head (p a b : string) : p +:+ a = p +:+ b -> a = b.
Proof.
  induction p as [|c p IH]; [trivial|].
  rewrite !append_cons. intros H. injection H as H. auto.
Qed.

Lemma digits_spec (s : string) :
  digits s = true <->
  s <> "" /\ forall c, In c (list_ascii_of_string s) -> is_digit c = true.
Proof.
  assert (A : forall t, all_digits t = true <->
            forall c, In c (list_ascii_of_string t) -> is_digit c = true).
  { induction t as [|x t IH]; simpl.
    - split; [intros _ c [] | reflexivity].
    - rewrite andb_true_iff, IH. split.
      + intros [Hx Ht] c [<-|Hc]; auto.
      + intros H. split; [apply H; now left | intros c Hc; apply H; now right]. }
  destruct s as [|x s].
  - simpl. split; [discriminate | now intros [H _]].
  - unfold digits. rewrite A. split; [intros H; split; [discriminate | exact H] | now intros [_ H]].
Qed.

End JsStringFacts.

(** ** The matcher against the meaning of patterns *)

Module RegexFacts.
Import JsString JsStringFacts Regex.

Lemma many1_sound (cs : CharSet) (s m s' : string) :
  In (m, s') (many1 cs s) ->
  s = m +:+ s' /\ m <> "" /\
  forall c, In c (list_ascii_of_string m) -> accepts cs c = true.
Proof.
  revert m s'. induction s as [|x s IH]; intros m s' Hin; simpl in Hin.
  - destruct Hin.
  - destruct (accepts cs x) eqn:Hx; [|destruct Hin].
    apply in_app_or in Hin. destruct Hin as [Hin|[Heq|[]]].
    + apply in_map_iff in Hin. destruct Hin as [[m0 s0] [Heq Hin]].
      injection Heq as <- <-. destruct (IH _ _ Hin) as (-> & _ & Hall).
      repeat split; [discriminate|].
      intros c [<-|Hc]; auto.
    + injection Heq as <- <-. repeat split; [discriminate|].
      intros c [<-|[]]. exact Hx.
Qed.

Lemma many1_complete (cs : CharSet) (m s' : string) :
  m <> "" ->
  (forall c, In c (list_ascii_of_string m) -> accepts cs c = true) ->
  In (m, s') (many1 cs (m +:+ s')).
Proof.
  induction m as [|x m IH]; intros Hne Hall; [now destruct Hne|].
  rewrite append_cons. simpl. rewrite (Hall x) by now left.
  apply in_or_app. destruct m as [|y m].
  - right. now left.
  - left. apply in_map_iff. exists (String y m, s'). split; [reflexivity|].
    apply IH; [discriminate|]. intros c Hc. apply Hall. now right.
Qed.

Lemma run_sound (r : Regex) :
  forall s cap m s' cap',
    In (m, s', cap') (run r s cap) -> s = m +:+ s' /\ denotes r m.
Proof.
  induction r as [|cs|cs|r1 IH1 r2 IH2|r IH]; intros s cap m s' cap' Hin;
    simpl in Hin.
  - destruct Hin as [Heq|[]]. injection Heq as <- <- <-. now split.
  - destruct s as [|x s]; [destruct Hin|].
    destruct (accepts cs x) eqn:Hx; [|destruct Hin].
    destruct Hin as [Heq|[]]. injection Heq as <- <- <-.
    split; [reflexivity|]. simpl. eauto.
  - apply in_map_iff in Hin. destruct Hin as [[m0 s0] [Heq Hin]].
    injection Heq as <- <- <-. apply many1_sound in Hin.
    destruct Hin as (-> & Hne & Hall). now split.
  - apply in_flat_map in Hin. destruct Hin as [[[m1 s1] cap1] [Hin1 Hin2]].
    apply in_map_iff in Hin2. destruct Hin2 as [[[m2 s2] cap2] [Heq Hin2]].
    injection Heq as <- <- <-.
    destruct (IH1 _ _ _ _ _ Hin1) as [-> D1].
    destruct (IH2 _ _ _ _ _ Hin2) as [-> D2].
    split; [now rewrite append_assoc|]. simpl. eauto.
  - apply in_map_iff in Hin. destruct Hin as [[[m0 s0] cap0] [Heq Hin]].
    injection Heq as <- <- <-. exact (IH _ _ _ _ _ Hin).
Qed.

Lemma run_complete (r : Regex) :
  forall m s' cap,
    denotes r m -> exists cap', In (m, s', cap') (run r (m +:+ s') cap).
Proof.
  induction r as [|cs|cs|r1 IH1 r2 IH2|r IH]; intros m s' cap D; simpl in D.
  - subst m. exists cap. now left.
  - destruct D as (c & -> & Hc). exists cap. rewrite append_cons. simpl.
    rewrite Hc. now left.
  - destruct D as [Hne Hall]. exists cap. simpl. apply in_map_iff.
    exists (m, s'). split; [reflexivity|]. now apply many1_complete.
  - destruct D as (m1 & m2 & -> & D1 & D2).
    destruct (IH1 m1 (m2 +:+ s') cap D1) as [cap1 H1].
    destruct (IH2 m2 s' cap1 D2) as [cap2 H2].
    exists cap2. simpl. rewrite append_assoc. apply in_flat_map.
    exists (m1, m2 +:+ s', cap1). split; [exact H1|].
    apply in_map_iff. exists (m2, s', cap2). now split.
  - destruct (IH m s' cap D) as [cap0 H]. exists (Some m). simpl.
    apply in_map_iff. exists (m, s', cap0). now split.
Qed.

(** A pattern that ends in its group leaves in the group what the group
    matched. *)
Lemma run_group_last (r1 r2 : Regex) (s : string) (cap : option string)
    (m s' : string) (cap' : option string) :
  In (m, s', cap') (run (Seq r1 (Group r2)) s cap) ->
  exists m1 m2,
    m = m1 +:+ m2 /\ s = m +:+ s' /\ cap' = Some m2 /\
    denotes r1 m1 /\ denotes r2 m2.
Proof.
  intros Hin. pose proof (run_sound _ _ _ _ _ _ Hin) as [Hs _].
  simpl in Hin. apply in_flat_map in Hin.
  destruct Hin as [[[m1 s1] cap1] [Hin1 Hin2]].
  apply in_map_iff in Hin2. destruct Hin2 as [[[m2 s2] cap2] [Heq Hin2]].
  injection Heq as <- <- <-.
  apply in_map_iff in Hin2. destruct Hin2 as [[[m3 s3] cap3] [Heq Hin2]].
  injection Heq as <- <- <-.
  exists m1, m3. repeat split; trivial.
  - exact (proj2 (run_sound _ _ _ _ _ _ Hin1)).
  - exact (proj2 (run_sound _ _ _ _ _ _ Hin2)).
Qed.

Lemma exec_eq (r : Regex) (s : string) :
  exec r s =
  match run r s None with
  | (m, _, cap) :: _ => Some (m, cap)
  | [] =>
      match s with
      | EmptyString => None
      | String _ rest => exec r rest
      end
  end.
Proof. destruct s; reflexivity. Qed.

Lemma exec_sound (r : Regex) (s m : string) (cap : option string) :
  exec r s = Some (m, cap) ->
  exists pre s', s = pre +:+ m +:+ s' /\ In (m, s', cap) (run r (m +:+ s') None).
Proof.
  induction s as [|x s IH]; rewrite exec_eq.
  - destruct (run r "" None) as [|[[m0 s0] cap0] l] eqn:E; [discriminate|].
    intros H. injection H as <- <-.
    assert (Hin : In (m0, s0, cap0) (run r "" None)) by (rewrite E; now left).
    destruct (run_sound _ _ _ _ _ _ Hin) as [Hs _].
    exists "", s0. rewrite append_nil_l. split; [exact Hs|].
      rewrite <- Hs. exact Hin.
  - destruct (run r (String x s) None) as [|[[m0 s0] cap0] l] eqn:E.
    + intros H. destruct (IH H) as (pre & s' & -> & Hin).
      exists (String x pre), s'. now rewrite append_cons.
    + intros H. injection H as <- <-.
      assert (Hin : In (m0, s0, cap0) (run r (String x s) None))
        by (rewrite E; now left).
      destruct (run_sound _ _ _ _ _ _ Hin) as [Hs _].
      exists "", s0. rewrite append_nil_l. split; [exact Hs|].
      rewrite <- Hs. exact Hin.
Qed.

Lemma exec_complete (r : Regex) (pre m post : string) :
  denotes r m -> exec r (pre +:+ m +:+ post) <> None.
Proof.
  intros D.
  assert (Hhere : forall s, run r s None <> [] -> exec r s <> None).
  { intros s Hne. rewrite exec_eq.
    destruct (run r s None) as [|[[m0 s0] cap0] l]; [now destruct Hne | discriminate]. }
  induction pre as [|x pre IH].
  - rewrite append_nil_l. apply Hhere.
    destruct (run_complete r m post None D) as [cap' Hin].
    intros E. rewrite E in Hin. destruct Hin.
  - rewrite append_cons, exec_eq.
    destruct (run r _ None) as [|[[m0 s0] cap0] l]; [exact IH | discriminate].
Qed.

Lemma denotes_lit (p m : string) : denotes (lit p) m <-> m = p.
Proof.
  revert m. induction p as [|x p IH]; intros m; simpl.
  - reflexivity.
  - split.
    + intros (m1 & m2 & -> & (c & -> & Hc) & D2).
      apply IH in D2. subst m2. apply Ascii.eqb_eq in Hc. now subst c.
    + intros ->. exists (String x ""), p. repeat split.
      * exists x. split; [reflexivity | apply Ascii.eqb_refl].
      * now apply IH.
Qed.

Lemma denotes_digits (m : string) :
  denotes (Many1 DigitClass) m <-> digits m = true.
Proof. simpl. symmetry. apply digits_spec. Qed.

Lemma denotes_dot (m : string) : denotes (One (Exactly ".")) m <-> m = ".".
Proof.
  simpl. split.
  - intros (c & -> & Hc). apply Ascii.eqb_eq in Hc. now subst c.
  - intros ->. now exists "."%char.
Qed.

End RegexFacts.

(** ** The probe's pattern *)

Module PatternFacts.
Import JsString JsStringFacts Regex RegexFacts.

Lemma denotes_semver (v : string) :
  denotes semver v <->
  exists a b c,
    v = a +:+ "." +:+ b +:+ "." +:+ c /\
    digits a = true /\ digits b = true /\ digits c = true.
Proof.
  unfold semver. split.
  - intros (a & r1 & -> & Da & d1 & r2 & -> & Dd1 & b & r3 & -> & Db
            & d2 & c & -> & Dd2 & Dc).
    apply denotes_dot in Dd1, Dd2. subst d1 d2.
    apply denotes_digits in Da, Db, Dc. exists a, b, c. auto.
  - intros (a & b & c & -> & Ha & Hb & Hc).
    exists a, ("." +:+ b +:+ "." +:+ c).
    split; [reflexivity|]. split; [now apply denotes_digits|].
    exists ".", (b +:+ "." +:+ c).
    split; [reflexivity|]. split; [now apply denotes_dot|].
    exists b, ("." +:+ c).
    split; [reflexivity|]. split; [now apply denotes_digits|].
    exists ".", c.
    split; [reflexivity|]. split; [now apply denotes_dot|].
    now apply denotes_digits.
Qed.

(** A match of the pattern is [anchor-cli ] and a version, and group 1 holds
    the version. *)
Lemma re_exec_sound (out m : string) (cap : option string) :
  exec re out = Some (m, cap) ->
  exists v, m = "anchor-cli " +:+ v /\ cap = Some v /\ reports_version out v.
Proof.
  intros H. apply exec_sound in H. destruct H as (pre & post & -> & Hin).
  apply run_group_last in Hin.
  destruct Hin as (m1 & v & -> & _ & -> & D1 & Dv).
  apply denotes_lit in D1. subst m1. exists v. repeat split.
  apply denotes_semver in Dv. destruct Dv as (a & b & c & Hv & Ha & Hb & Hc).
  exists pre, a, b, c, post. rewrite append_assoc. auto.
Qed.

Lemma re_group1 (out m : string) (cap : option string) :
  exec re out = Some (m, cap) -> cap <> None.
Proof.
  intros H. apply re_exec_sound in H. destruct H as (v & _ & -> & _).
  discriminate.
Qed.

Lemma re_exec_complete (out v : string) :
  reports_version out v -> exec re out <> None.
Proof.
  intros (pre & a & b & c & post & -> & Hv & Ha & Hb & Hc).
  rewrite <- (append_assoc "anchor-cli " v post).
  apply exec_complete. exists "anchor-cli ", v.
  split; [reflexivity|]. split; [now apply denotes_lit|].
  apply denotes_semver. exists a, b, c. auto.
Qed.

Lemma reports_version_append (out more v : string) :
  reports_version out v -> reports_version (out +:+ more) v.
Proof.
  intros (pre & a & b & c & post & -> & Hv & Ha & Hb & Hc).
  exists pre, a, b, c, (post +:+ more). rewrite !append_assoc. auto.
Qed.

Lemma re_exec_none (out : string) :
  (forall v, ~ reports_version out v) -> exec re out = None.
Proof.
  intros Hno. destruct (exec re out) as [[m cap]|] eqn:E; [|reflexivity].
  apply re_exec_sound in E. destruct E as (v & _ & _ & Hv).
  now destruct (Hno v).
Qed.

Lemma re_exec_some (out v : string) :
  reports_version out v ->
  exists v',
    exec re out = Some ("anchor-cli " +:+ v', Some v') /\
    reports_version out v'.
Proof.
  intros Hv. destruct (exec re out) as [[m cap]|] eqn:E.
  - destruct (re_exec_sound _ _ _ E) as (v' & -> & -> & Hv'). eauto.
  - now destruct (re_exec_complete _ _ Hv).
Qed.

End PatternFacts.

(** ** The handlers, step by step *)

Section HandlerFacts.
Import JsString JsStringFacts PatternFacts.

Context {Idl PrettierOptions : Type} (host : Host Idl PrettierOptions).

Lemma fold_left_cons {S E : Type} (f : S -> E -> S) (e : E) (l : list E) (s : S) :
  fold_left f (e :: l) s = fold_left f l (f s e).
Proof. reflexivity. Qed.

(** *** The probe *)

Lemma probe_fold_running (evs : list ChildEvent) :
  forallb running evs = true ->
  forall s, fold_left probe_on evs (s, Pending) = (s +:+ stdout_of evs, Pending).
Proof.
  induction evs as [|ev evs IH]; intros Hrun s.
  - simpl. now rewrite append_nil_r.
  - simpl in Hrun. apply andb_true_iff in Hrun. destruct Hrun as [Hev Hrun].
    rewrite fold_left_cons.
    destruct ev as [buf|buf|err|code sig|code sig]; try discriminate Hev;
      cbn [probe_on stdout_of]; rewrite (IH Hrun); trivial.
    now rewrite append_assoc.
Qed.

Lemma probe_closed (evs : list ChildEvent) (code : option Z)
    (sig : option string) :
  forallb running evs = true ->
  probe_events host = evs ++ [OnClose code sig] ->
  snd (getAnchorCommandVersion host) =
  snd (probe_on (stdout_of evs, Pending) (OnClose code sig)).
Proof.
  intros Hrun Hev. unfold getAnchorCommandVersion. cbn [snd].
  unfold probe_events in Hev. rewrite Hev, fold_left_app.
  rewrite (probe_fold_running _ Hrun), append_nil_l. reflexivity.
Qed.


(** While the output holds no version, no event fulfils the probe. *)
Lemma probe_fold_no_version (evs : list ChildEvent) :
  forall s p,
    (forall v, ~ reports_version (s +:+ stdout_of evs) v) ->
    (forall v, p <> Fulfilled v) ->
    fst (fold_left probe_on evs (s, p)) = s +:+ stdout_of evs /\
    forall v, snd (fold_left probe_on evs (s, p)) <> Fulfilled v.
Proof.
  induction evs as [|ev evs IH]; intros s p Hno Hp.
  - simpl. now rewrite append_nil_r.
  - rewrite fold_left_cons.
    assert (Hs : forall v, ~ reports_version s v).
    { intros v Hv. apply (Hno v). now apply reports_version_append. }
    destruct ev as [buf|buf|err|code sig|code sig]; cbn [probe_on stdout_of].
    + rewrite <- append_assoc. apply IH; trivial.
      intros v. rewrite append_assoc. apply Hno.
    + now apply IH.
    + destruct (_ && _); apply IH; trivial;
        intros v; destruct p; cbn; try discriminate; apply Hp.
    + now apply IH.
    + destruct code as [[|n|n]|]; try rewrite (re_exec_none _ Hs);
        apply IH; trivial;
        intros v; destruct p; cbn; try discriminate; apply Hp.
Qed.

(** *** The manifest lookup *)

Lemma toml_lookup (path text : string) (parsed : CargoToml) :
  readFile host path = Fulfilled text ->
  parse host text = Normal parsed ->
  getAnchorVersionInToml host path =
  ([ReadFile path],
   match dependencies parsed with
   | None => Rejected (VError (TypeError_of_undefined "anchor-lang"))
   | Some table =>
       match table !! "anchor-lang" with
       | None =>
           Rejected (VError (Error
             ("anchor_lang not found as dependency in " +:+ path)))
       | Some entry => Fulfilled (version_of entry)
       end
   end).
Proof.
  intros Hread Hparse.
  unfold getAnchorVersionInToml, parseCargoToml, try_catch, call, bind.
  rewrite Hread. unfold of_completion. rewrite Hparse. cbn.
  destruct (dependencies parsed) as [table|]; [|reflexivity].
  destruct (table !! "anchor-lang") as [[v|v others]|]; reflexivity.
Qed.

(** A lookup that gives a version has read the manifest and done nothing
    else. *)
Lemma toml_fulfilled_effects (path v : string) :
  snd (getAnchorVersionInToml host path) = Fulfilled v ->
  fst (getAnchorVersionInToml host path) = [ReadFile path].
Proof.
  unfold getAnchorVersionInToml, parseCargoToml, try_catch, call, bind.
  destruct (readFile host path) as [|text|reason]; cbn; try discriminate.
  unfold of_completion. destruct (parse host text) as [parsed|reason]; cbn;
    try discriminate.
  destruct (dependencies parsed) as [table|]; cbn; try discriminate.
  destruct (table !! "anchor-lang") as [[w|w others]|]; cbn;
    try discriminate; reflexivity.
Qed.

(** *** IDL generation *)

Lemma idlGenerator_fold_exited (config : SolitaConfig)
    (binVersion libVersion : string) (prettierConfig : option PrettierOptions)
    (ara : option bool) (evs : list ChildEvent) :
  forallb exited evs = true ->
  forall es p,
    fold_left
      (idlGenerator_on host config binVersion libVersion prettierConfig ara)
      evs (es, p)
    = (es ++ passthrough evs, p).
Proof.
  induction evs as [|ev evs IH]; intros Hex es p.
  - simpl. now rewrite app_nil_r.
  - simpl in Hex. apply andb_true_iff in Hex. destruct Hex as [Hev Hex].
    rewrite fold_left_cons.
    destruct ev as [buf|buf|err|code sig|code sig]; try discriminate Hev;
      cbn [idlGenerator_on]; rewrite (IH Hex); cbn;
      rewrite <- ?app_assoc; reflexivity.
Qed.

(** A started generator that exits: what was written before, the [async]
    listener, what was written after; the promise follows the listener. *)
Lemma generateIdl_exit (config : SolitaConfig) (command : string)
    (spawnArgs : list string) (spawnOpts : SpawnOptions)
    (binVersion libVersion : string) (prettierConfig : option PrettierOptions)
    (ara : option bool) (pre post : list ChildEvent) (code : option Z)
    (sig : option string) :
  spawn host command spawnArgs spawnOpts = pre ++ OnExit code sig :: post ->
  forallb exited pre = true ->
  forallb exited post = true ->
  let listener :=
    idlGenerator_exit host config binVersion libVersion prettierConfig ara in
  generateIdl host config command spawnArgs spawnOpts binVersion libVersion
    prettierConfig ara
  = (Spawn command spawnArgs spawnOpts
       :: passthrough pre ++ fst listener ++ unhandled listener
       ++ passthrough post,
     match snd listener with
     | Fulfilled _ => Fulfilled tt
     | _ => Pending
     end).
Proof.
  intros Hev Hpre Hpost listener. unfold generateIdl.
  rewrite Hev, fold_left_app, (idlGenerator_fold_exited _ _ _ _ _ _ Hpre).
  rewrite fold_left_cons. cbn [idlGenerator_on].
  fold listener. unfold unhandled.
  destruct listener as [es' [|[]|reason]]; cbn [fst snd];
    rewrite (idlGenerator_fold_exited _ _ _ _ _ _ Hpost); cbn;
    rewrite <- ?app_assoc, ?app_nil_r; reflexivity.
Qed.


(** The [async] listener by the answers of the two collaborators. *)
Lemma idlGenerator_exit_eq (config : SolitaConfig)
    (binVersion libVersion : string) (prettierConfig : option PrettierOptions)
    (ara : option bool) :
  idlGenerator_exit host config binVersion libVersion prettierConfig ara =
  let info :=
    LogInfo "IDL written to: %s"
      [VString (path_join host [idlDir config; programName config +:+ ".json"])]
  in
  match enhanceIdl host config binVersion libVersion with
  | Fulfilled idl =>
      ([info; EnhanceIdl config binVersion libVersion;
        GenerateTypeScriptSDK idl (sdkDir config) prettierConfig
          (typeAliases config) (serializers config) ara],
       generateTypeScriptSDK host idl (sdkDir config) prettierConfig
         (typeAliases config) (serializers config) ara)
  | Rejected reason =>
      ([info; EnhanceIdl config binVersion libVersion], Rejected reason)
  | Pending => ([info; EnhanceIdl config binVersion libVersion], Pending)
  end.
Proof.
  unfold idlGenerator_exit, bind, emit, call.
  destruct (enhanceIdl host config binVersion libVersion); reflexivity.
Qed.

Lemma passthrough_no_codegen (evs : list ChildEvent) :
  filter is_codegen_call (passthrough (Idl:=Idl) (PrettierOptions:=PrettierOptions) evs) = [].
Proof.
  induction evs as [|[buf|buf|err|code sig|code sig] evs IH]; simpl; auto.
Qed.

(** *** The orchestrators up to the spawn *)

Lemma handleAnchor_eq (config : SolitaConfig)
    (prettierConfig : option PrettierOptions) (cli declared : string) :
  snd (getAnchorCommandVersion host) = Fulfilled cli ->
  snd (getAnchorVersionInToml host (manifest_path host config))
    = Fulfilled declared ->
  handleAnchor host config prettierConfig =
  let before :=
    [Spawn "anchor" ["--version"] {| cwd := None; stdio := Some "pipe" |};
     ReadFile (manifest_path host config)] in
  if String.eqb cli declared
  then
    let run :=
      generateIdl host config "anchor" (anchor_build_args config)
        (in_program_dir config) cli declared prettierConfig
        (anchorRemainingAccounts config) in
    (before ++ fst run, snd run)
  else
    (before,
     Rejected (VError (Error
       ("Anchor version mismatch! Selected anchor cli: " +:+ cli
          +:+ ", in Cargo.toml: " +:+ declared)))).
Proof.
  intros Hprobe Htoml.
  pose proof (toml_fulfilled_effects _ _ Htoml) as Heff.
  unfold handleAnchor. fold (manifest_path host config).
  fold (anchor_build_args config) (in_program_dir config).
  destruct (getAnchorVersionInToml host (manifest_path host config))
    as [es2 r2]. cbn [fst snd] in Htoml, Heff. subst es2 r2.
  unfold getAnchorCommandVersion in *. cbn [snd] in Hprobe.
  unfold bind at 1. rewrite Hprobe. unfold bind at 1.
  destruct (String.eqb cli declared); cbn [negb].
  - destruct (generateIdl _ _ _ _ _ _ _ _ _) as [es3 r3]. reflexivity.
  - reflexivity.
Qed.

(** The effects of the installer run with [confirmAutoMessageLog] are the
    log lines of the callback. *)
Lemma installing_logs (i : Installer) :
  Forall
    (fun e : Effect Idl PrettierOptions =>
       match e with
       | LogInfo _ _ => True
       | _ => False
       end)
    (fst (installing confirmAutoMessageLog i)).
Proof.
  induction i as [result|args next IH]; cbn [installing fst]; [constructor|].
  specialize (IH (Fulfilled true)).
  unfold confirmAutoMessageLog at 1, bind, emit, ret.
  destruct (confirm_binVersion args);
    destruct (installing confirmAutoMessageLog (next (Fulfilled true)))
      as [es r]; cbn [fst app] in *; repeat (constructor; [exact I|]);
    exact IH.
Qed.

Lemma filter_logs (f : Effect Idl PrettierOptions -> bool)
    (l : list (Effect Idl PrettierOptions)) :
  (forall fmt args, f (LogInfo fmt args) = false) ->
  Forall
    (fun e : Effect Idl PrettierOptions =>
       match e with
       | LogInfo _ _ => True
       | _ => False
       end) l ->
  filter f l = [].
Proof.
  intros Hf Hl. induction Hl as [|e l He _ IH]; [reflexivity|].
  destruct e; try now destruct He.
  change (LogInfo fmt args :: l) with ([LogInfo fmt args] ++ l).
  rewrite filter_app, IH, app_nil_r.
  rewrite filter_cons, decide_False; [reflexivity|].
  rewrite Hf. exact id.
Qed.

Lemma rustbinMatch_quiet (rustbinConfig : RustbinConfig) :
  let asked :=
    RustbinMatch rustbinConfig
      :: fst (rustbinMatch host rustbinConfig confirmAutoMessageLog) in
  filter is_spawn asked = [] /\
  filter is_codegen_call asked = [] /\
  filter is_write asked = [].
Proof.
  cbv zeta. change (?e :: ?l) with ([e] ++ l). rewrite !filter_app.
  unfold rustbinMatch.
  rewrite !(filter_logs _ _ (fun _ _ => eq_refl) (installing_logs _)).
  repeat split.
Qed.

Lemma handle_eq (config : SolitaConfig) (rustbinConfig : RustbinConfig)
    (spawnArgs : list string) (spawnOpts : SpawnOptions)
    (prettierConfig : option PrettierOptions) (ara : option bool)
    (matched : RustbinMatchReturn) :
  snd (rustbinMatch host rustbinConfig confirmAutoMessageLog)
    = Fulfilled matched ->
  handle host config rustbinConfig spawnArgs spawnOpts prettierConfig ara =
  let asked :=
    RustbinMatch rustbinConfig
      :: fst (rustbinMatch host rustbinConfig confirmAutoMessageLog) in
  match binVersion matched with
  | None =>
      (asked,
       Rejected (VError (Error
         ("rustbin was unable to determine installed version "
            +:+ binaryName rustbinConfig +:+ ", it may "
            +:+ "not have been installed correctly."))))
  | Some installed =>
      let run :=
        generateIdl host config (fullPathToBinary matched) spawnArgs spawnOpts
          installed (libVersion matched) prettierConfig ara in
      (asked ++ fst run, snd run)
  end.
Proof.
  intros Hm. unfold handle, emit, bind.
  destruct (rustbinMatch host rustbinConfig confirmAutoMessageLog) as [es r].
  cbn [fst snd] in *. subst r.
  destruct (binVersion matched) as [installed|].
  - destruct (generateIdl _ _ _ _ _ _ _ _ _) as [es' r]. reflexivity.
  - cbn [throw app]. now rewrite app_nil_r.
Qed.

Lemma idlGenerator_fold_prefix (config : SolitaConfig)
    (binVersion libVersion : string) (prettierConfig : option PrettierOptions)
    (ara : option bool) (evs : list ChildEvent) :
  forall es p, exists es',
    fst (fold_left
           (idlGenerator_on host config binVersion libVersion prettierConfig ara)
           evs (es, p))
    = es ++ es'.
Proof.
  induction evs as [|ev evs IH]; intros es p.
  - exists []. simpl. now rewrite app_nil_r.
  - rewrite fold_left_cons.
    assert (Hstep : exists d q,
      idlGenerator_on host config binVersion libVersion prettierConfig ara
        (es, p) ev = (es ++ d, q)).
    { destruct ev as [buf|buf|err|code sig|code sig]; cbn [idlGenerator_on];
        eauto.
      - destruct (idlGenerator_exit _ _ _ _ _ _) as [es' [|[]|reason]]; eauto.
      - exists [], p. now rewrite app_nil_r. }
    destruct Hstep as (d & q & ->). destruct (IH (es ++ d) q) as [es' ->].
    exists (d ++ es'). now rewrite app_assoc.
Qed.

(** ** The properties *)

(** C1: in [handleAnchor], when the version the probe gave and the version
    the manifest declares differ, the run is rejected with an error whose
    message holds both versions, and the only process spawned is the probe:
    the IDL generator is not; when they are equal, the IDL generator is
    spawned. *)
Theorem handleAnchor_version_gate (config : SolitaConfig)
    (prettierConfig : option PrettierOptions) (cli declared : string) :
  snd (getAnchorCommandVersion host) = Fulfilled cli ->
  snd (getAnchorVersionInToml host (manifest_path host config))
    = Fulfilled declared ->
  (cli <> declared ->
   exists msg,
     snd (handleAnchor host config prettierConfig)
       = Rejected (VError (Error msg)) /\
     includes msg cli = true /\ includes msg declared = true /\
     filter is_spawn (fst (handleAnchor host config prettierConfig))
       = [Spawn "anchor" ["--version"] {| cwd := None; stdio := Some "pipe" |}])
  /\
  (cli = declared ->
   In (Spawn "anchor" (anchor_build_args config) (in_program_dir config))
      (fst (handleAnchor host config prettierConfig))).
Proof.
  intros Hprobe Htoml.
  rewrite (handleAnchor_eq _ _ _ _ Hprobe Htoml). cbv zeta. split.
  - intros Hne. apply String.eqb_neq in Hne. rewrite Hne.
    eexists. split; [reflexivity|]. repeat split.
    + apply includes_append.
    + rewrite <- (append_assoc cli _ declared), <- (append_assoc _ _ declared).
      apply includes_suffix.
  - intros ->. rewrite String.eqb_refl. cbn [fst].
    unfold generateIdl.
    destruct (idlGenerator_fold_prefix config declared declared prettierConfig
                (anchorRemainingAccounts config)
                (spawn host "anchor" (anchor_build_args config)
                   (in_program_dir config))
                [Spawn "anchor" (anchor_build_args config)
                   (in_program_dir config)] Pending) as [es' ->].
    apply in_or_app. right. now left.
Qed.

(** C2: the exit code and the signal of the IDL generator do not enter the
    run: the listeners take the same steps on an exit with any code as on
    an exit with code 0, whatever the events around it; and when the two
    collaborators succeed, the promise of [handleAnchor] and the promise of
    [handle] are fulfilled after an exit with any code. *)
Theorem exit_code_not_inspected (configA configS : SolitaConfig)
    (prettierConfig : option PrettierOptions)
    (pre post : list ChildEvent) (code : option Z) (sig : option string) :
  forallb exited pre = true ->
  forallb exited post = true ->
  (forall config binVersion libVersion ara evs evs' st,
     fold_left
       (idlGenerator_on host config binVersion libVersion prettierConfig ara)
       (evs ++ OnExit code sig :: evs') st
     = fold_left
         (idlGenerator_on host config binVersion libVersion prettierConfig ara)
         (evs ++ OnExit (Some 0%Z) None :: evs') st)
  /\
  (forall cli idl,
     snd (getAnchorCommandVersion host) = Fulfilled cli ->
     snd (getAnchorVersionInToml host (manifest_path host configA))
       = Fulfilled cli ->
     spawn host "anchor" (anchor_build_args configA) (in_program_dir configA)
       = pre ++ OnExit code sig :: post ->
     enhanceIdl host configA cli cli = Fulfilled idl ->
     generateTypeScriptSDK host idl (sdkDir configA) prettierConfig
       (typeAliases configA) (serializers configA)
       (anchorRemainingAccounts configA) = Fulfilled tt ->
     snd (handleAnchor host configA prettierConfig) = Fulfilled tt)
  /\
  (forall rustbinConfig spawnArgs spawnOpts ara matched installed idl,
     snd (rustbinMatch host rustbinConfig confirmAutoMessageLog)
       = Fulfilled matched ->
     binVersion matched = Some installed ->
     spawn host (fullPathToBinary matched) spawnArgs spawnOpts
       = pre ++ OnExit code sig :: post ->
     enhanceIdl host configS installed (libVersion matched) = Fulfilled idl ->
     generateTypeScriptSDK host idl (sdkDir configS) prettierConfig
       (typeAliases configS) (serializers configS) ara = Fulfilled tt ->
     snd (handle host configS rustbinConfig spawnArgs spawnOpts
            prettierConfig ara) = Fulfilled tt).
Proof.
  intros Hpre Hpost. split; [|split].
  - intros config binVersion libVersion ara evs evs' st.
    rewrite !fold_left_app, !fold_left_cons.
    destruct (fold_left _ evs st) as [es p]. reflexivity.
  - intros cli idl Hprobe Htoml Hev Henh Hgen.
    rewrite (handleAnchor_eq _ _ _ _ Hprobe Htoml). cbv zeta.
    rewrite String.eqb_refl. cbn [snd].
    rewrite (generateIdl_exit _ _ _ _ _ _ _ _ _ _ _ _ Hev Hpre Hpost).
    cbn [snd]. rewrite idlGenerator_exit_eq. cbv zeta.
    rewrite Henh. cbn [snd]. now rewrite Hgen.
  - intros rustbinConfig spawnArgs spawnOpts ara matched installed idl
      Hm Hbin Hev Henh Hgen.
    rewrite (handle_eq _ _ _ _ _ _ _ Hm), Hbin. cbv zeta. cbn [snd].
    rewrite (generateIdl_exit _ _ _ _ _ _ _ _ _ _ _ _ Hev Hpre Hpost).
    cbn [snd]. rewrite idlGenerator_exit_eq. cbv zeta.
    rewrite Henh. cbn [snd]. now rewrite Hgen.
Qed.

(** C3: after an exit of the IDL generator, the calls to the code-generation
    collaborators in a run of [handleAnchor] are one [enhanceIdl], with the
    config and the two versions, then one [generateTypeScriptSDK], with the
    IDL that [enhanceIdl] gave and the config's SDK directory, type aliases
    and serializers as they are; and the same in a run of [handle], with the
    versions the installer gave. *)
Theorem exit_hands_off_once (configA configS : SolitaConfig)
    (prettierConfig : option PrettierOptions)
    (pre post : list ChildEvent) (code : option Z) (sig : option string) :
  forallb exited pre = true ->
  forallb exited post = true ->
  (forall cli idl,
     snd (getAnchorCommandVersion host) = Fulfilled cli ->
     snd (getAnchorVersionInToml host (manifest_path host configA))
       = Fulfilled cli ->
     spawn host "anchor" (anchor_build_args configA) (in_program_dir configA)
       = pre ++ OnExit code sig :: post ->
     enhanceIdl host configA cli cli = Fulfilled idl ->
     filter is_codegen_call (fst (handleAnchor host configA prettierConfig))
     = [EnhanceIdl configA cli cli;
        GenerateTypeScriptSDK idl (sdkDir configA) prettierConfig
          (typeAliases configA) (serializers configA)
          (anchorRemainingAccounts configA)])
  /\
  (forall rustbinConfig spawnArgs spawnOpts ara matched installed idl,
     snd (rustbinMatch host rustbinConfig confirmAutoMessageLog)
       = Fulfilled matched ->
     binVersion matched = Some installed ->
     spawn host (fullPathToBinary matched) spawnArgs spawnOpts
       = pre ++ OnExit code sig :: post ->
     enhanceIdl host configS installed (libVersion matched) = Fulfilled idl ->
     filter is_codegen_call
       (fst (handle host configS rustbinConfig spawnArgs spawnOpts
               prettierConfig ara))
     = [EnhanceIdl configS installed (libVersion matched);
        GenerateTypeScriptSDK idl (sdkDir configS) prettierConfig
          (typeAliases configS) (serializers configS) ara]).
Proof.
  intros Hpre Hpost.
  assert (Hcalls : forall config command spawnArgs spawnOpts bv lv ara idl,
    spawn host command spawnArgs spawnOpts = pre ++ OnExit code sig :: post ->
    enhanceIdl host config bv lv = Fulfilled idl ->
    filter is_codegen_call
      (fst (generateIdl host config command spawnArgs spawnOpts bv lv
              prettierConfig ara))
    = [EnhanceIdl config bv lv;
       GenerateTypeScriptSDK idl (sdkDir config) prettierConfig
         (typeAliases config) (serializers config) ara]).
  { intros config command spawnArgs spawnOpts bv lv ara idl Hev Henh.
    rewrite (generateIdl_exit _ _ _ _ _ _ _ _ _ _ _ _ Hev Hpre Hpost).
    cbn [fst]. unfold unhandled. rewrite idlGenerator_exit_eq. cbv zeta.
    rewrite Henh. cbn [fst snd].
    change (Spawn command spawnArgs spawnOpts :: ?l)
      with ([Spawn command spawnArgs spawnOpts] ++ l).
    rewrite !filter_app, !passthrough_no_codegen.
    destruct (generateTypeScriptSDK _ _ _ _ _ _ _) as [|[]|reason]; reflexivity. }
  split.
  - intros cli idl Hprobe Htoml Hev Henh.
    rewrite (handleAnchor_eq _ _ _ _ Hprobe Htoml). cbv zeta.
    rewrite String.eqb_refl. cbn [fst]. rewrite filter_app.
    now rewrite (Hcalls _ _ _ _ _ _ _ _ Hev Henh).
  - intros rustbinConfig spawnArgs spawnOpts ara matched installed idl
      Hm Hbin Hev Henh.
    rewrite (handle_eq _ _ _ _ _ _ _ Hm), Hbin. cbv zeta. cbn [fst].
    rewrite filter_app, (proj1 (proj2 (rustbinMatch_quiet rustbinConfig))).
    now rewrite (Hcalls _ _ _ _ _ _ _ _ Hev Henh).
Qed.

(** C4: when the manifest is read and parsed and its [anchor-lang] entry is
    the bare string [v], [getAnchorVersionInToml] gives [v]; when the entry
    is a table with version [v], it gives [v] whatever the other keys of the
    table. *)
Theorem toml_version_of_entry (path text : string) (parsed : CargoToml)
    (table : gmap string Dependency) :
  readFile host path = Fulfilled text ->
  parse host text = Normal parsed ->
  dependencies parsed = Some table ->
  (forall v,
     table !! "anchor-lang" = Some (DepString v) ->
     snd (getAnchorVersionInToml host path) = Fulfilled v)
  /\
  (forall v others,
     table !! "anchor-lang" = Some (DepTable v others) ->
     snd (getAnchorVersionInToml host path) = Fulfilled v).
Proof.
  intros Hread Hparse Htable.
  rewrite (toml_lookup _ _ _ Hread Hparse), Htable. cbn [snd].
  split; [intros v Hv | intros v others Hv]; now rewrite Hv.
Qed.


(** C6: in [handle], when the installer answers with no version of the
    installed binary, whatever path it answers with and whatever it asked
    to be confirmed before, the run is rejected with an error whose message
    names the binary, and [handle] has spawned no process. *)
Theorem handle_aborts_without_binVersion (config : SolitaConfig)
    (rustbinConfig : RustbinConfig) (spawnArgs : list string)
    (spawnOpts : SpawnOptions) (prettierConfig : option PrettierOptions)
    (ara : option bool) (matched : RustbinMatchReturn) :
  snd (rustbinMatch host rustbinConfig confirmAutoMessageLog)
    = Fulfilled matched ->
  binVersion matched = None ->
  exists msg,
    snd (handle host config rustbinConfig spawnArgs spawnOpts prettierConfig
           ara) = Rejected (VError (Error msg)) /\
    msg = "rustbin was unable to determine installed version "
            +:+ binaryName rustbinConfig +:+ ", it may "
            +:+ "not have been installed correctly." /\
    includes msg (binaryName rustbinConfig) = true /\
    filter is_spawn
      (fst (handle host config rustbinConfig spawnArgs spawnOpts
              prettierConfig ara)) = [].
Proof.
  intros Hm Hbin. rewrite (handle_eq _ _ _ _ _ _ _ Hm), Hbin. cbv zeta.
  eexists. split; [reflexivity|]. split; [reflexivity|].
  split; [apply includes_append|].
  apply (rustbinMatch_quiet rustbinConfig).
Qed.


(** C8: for a probe whose child closes: when its standard output holds no
    [anchor-cli ] followed by a version, the probe is rejected, whatever the
    events and the exit code, and for a child that ran and closed with code
    0 with the message of the failed match; when the output holds one and
    the child ran and closed with code 0, the probe is fulfilled with what
    group 1 of the pattern captured, which is such a version of the
    output. *)
Theorem probe_pattern_decides (evs : list ChildEvent) (code : option Z)
    (sig : option string) :
  probe_events host = evs ++ [OnClose code sig] ->
  ((forall v, ~ reports_version (stdout_of evs) v) ->
   exists reason,
     snd (getAnchorCommandVersion host) = Rejected reason /\
     (forallb running evs = true -> code = Some 0%Z ->
      reason = VString "Anchor version matching failed"))
  /\
  (forallb running evs = true -> code = Some 0%Z ->
   forall v, reports_version (stdout_of evs) v ->
   exists v',
     snd (getAnchorCommandVersion host) = Fulfilled v' /\
     Regex.exec re (stdout_of evs) = Some ("anchor-cli " +:+ v', Some v') /\
     reports_version (stdout_of evs) v').
Proof.
  intros Hev. split.
  - intros Hno.
    assert (Hrej : exists reason,
              snd (getAnchorCommandVersion host) = Rejected reason).
    { unfold getAnchorCommandVersion. cbn [snd].
      unfold probe_events in Hev. rewrite Hev, fold_left_app.
      destruct (probe_fold_no_version evs "" Pending) as [Hout Hp];
        [exact Hno | discriminate |].
      destruct (fold_left probe_on evs ("", Pending)) as [out p].
      cbn [fst snd] in Hout, Hp. rewrite append_nil_l in Hout. subst out.
      rewrite fold_left_cons. cbn [fold_left].
      destruct p as [|v|reason]; [|now destruct (Hp v)|].
      - destruct code as [[|n|n]|]; cbn [probe_on];
          try rewrite (re_exec_none _ Hno); cbn; eauto.
      - destruct code as [[|n|n]|]; cbn [probe_on];
          try rewrite (re_exec_none _ Hno); cbn; eauto. }
    destruct Hrej as [reason Hrej]. exists reason. split; [exact Hrej|].
    intros Hrun ->. rewrite (probe_closed _ _ _ Hrun Hev) in Hrej.
    cbn [probe_on] in Hrej. rewrite (re_exec_none _ Hno) in Hrej.
    cbn in Hrej. now injection Hrej as <-.
  - intros Hrun -> v Hv. rewrite (probe_closed _ _ _ Hrun Hev).
    destruct (re_exec_some _ _ Hv) as (v' & Hexec & Hv').
    exists v'. cbn [probe_on]. rewrite Hexec. now split.
Qed.

(** C9: for a probe whose child ran and closed with an exit code other than
    0, the probe is rejected with an error whose message ends in that code,
    whatever the child wrote: the output is not matched against the
    pattern. *)
Theorem probe_rejects_nonzero_exit (evs : list ChildEvent) (n : Z)
    (sig : option string) :
  forallb running evs = true ->
  probe_events host = evs ++ [OnClose (Some n) sig] ->
  n <> 0%Z ->
  exists msg,
    snd (getAnchorCommandVersion host) = Rejected (VError (Error msg)) /\
    msg = "Process exited with code " +:+ number_to_string n /\
    includes msg (number_to_string n) = true.
Proof.
  intros Hrun Hev Hn. rewrite (probe_closed _ _ _ Hrun Hev).
  eexists. split; [|split; [reflexivity | apply includes_suffix]].
  destruct n as [|n|n]; [now destruct Hn | reflexivity | reflexivity].
Qed.

(** C10: after an exit of the IDL generator, when [enhanceIdl] or
    [generateTypeScriptSDK] fails, the promise of [handleAnchor] and the
    promise of [handle] stay pending: the failure rejects the promise of
    the [async] listener, which has no handler, and [resolve] is not
    reached. *)
Theorem codegen_failure_leaves_pending (configA configS : SolitaConfig)
    (prettierConfig : option PrettierOptions)
    (pre post : list ChildEvent) (code : option Z) (sig : option string)
    (reason : Value) :
  forallb exited pre = true ->
  forallb exited post = true ->
  (forall cli,
     snd (getAnchorCommandVersion host) = Fulfilled cli ->
     snd (getAnchorVersionInToml host (manifest_path host configA))
       = Fulfilled cli ->
     spawn host "anchor" (anchor_build_args configA) (in_program_dir configA)
       = pre ++ OnExit code sig :: post ->
     codegen_fails host configA cli cli prettierConfig
       (anchorRemainingAccounts configA) reason ->
     snd (handleAnchor host configA prettierConfig) = Pending /\
     In (UnhandledRejection reason)
        (fst (handleAnchor host configA prettierConfig)))
  /\
  (forall rustbinConfig spawnArgs spawnOpts ara matched installed,
     snd (rustbinMatch host rustbinConfig confirmAutoMessageLog)
       = Fulfilled matched ->
     binVersion matched = Some installed ->
     spawn host (fullPathToBinary matched) spawnArgs spawnOpts
       = pre ++ OnExit code sig :: post ->
     codegen_fails host configS installed (libVersion matched) prettierConfig
       ara reason ->
     snd (handle host configS rustbinConfig spawnArgs spawnOpts
            prettierConfig ara) = Pending /\
     In (UnhandledRejection reason)
        (fst (handle host configS rustbinConfig spawnArgs spawnOpts
                prettierConfig ara))).
Proof.
  intros Hpre Hpost.
  assert (Hrun : forall config command spawnArgs spawnOpts bv lv ara,
    spawn host command spawnArgs spawnOpts = pre ++ OnExit code sig :: post ->
    codegen_fails host config bv lv prettierConfig ara reason ->
    let run := generateIdl host config command spawnArgs spawnOpts bv lv
                 prettierConfig ara in
    snd run = Pending /\ In (UnhandledRejection reason) (fst run)).
  { intros config command spawnArgs spawnOpts bv lv ara Hev Hfail run.
    subst run.
    rewrite (generateIdl_exit _ _ _ _ _ _ _ _ _ _ _ _ Hev Hpre Hpost).
    cbn [fst snd]. unfold unhandled. rewrite idlGenerator_exit_eq. cbv zeta.
    destruct Hfail as [Henh|(idl & Henh & Hgen)]; rewrite Henh; cbn [fst snd];
      try rewrite Hgen; (split; [reflexivity|]);
      right; apply in_or_app; right; apply in_or_app; right;
      apply in_or_app; left; now left. }
  split.
  - intros cli Hprobe Htoml Hev Hfail.
    rewrite (handleAnchor_eq _ _ _ _ Hprobe Htoml). cbv zeta.
    rewrite String.eqb_refl. cbn [fst snd].
    destruct (Hrun _ _ _ _ _ _ _ Hev Hfail) as [Hp Hin].
    split; [exact Hp|]. apply in_or_app. now right.
  - intros rustbinConfig spawnArgs spawnOpts ara matched installed
      Hm Hbin Hev Hfail.
    rewrite (handle_eq _ _ _ _ _ _ _ Hm), Hbin. cbv zeta. cbn [fst snd].
    destruct (Hrun _ _ _ _ _ _ _ Hev Hfail) as [Hp Hin].
    split; [exact Hp|]. apply in_or_app. now right.
Qed.

End HandlerFacts.

(** ** The properties on concrete runs *)

Module Witnesses.
Import JsString JsStringFacts PatternFacts Sample.

Lemma handleAnchor_version_gate_witness :
  (exists msg,
     snd (handleAnchor differing config None) = Rejected (VError (Error msg)) /\
     includes msg "0.27.0" = true /\ includes msg "0.26.0" = true /\
     filter is_spawn (fst (handleAnchor differing config None))
       = [Spawn "anchor" ["--version"] {| cwd := None; stdio := Some "pipe" |}])
  /\
  In (Spawn "anchor" (anchor_build_args config) (in_program_dir config))
     (fst (handleAnchor agreeing config None)).
Proof.
  split.
  - apply (handleAnchor_version_gate differing config None "0.27.0" "0.26.0");
      [reflexivity | reflexivity | discriminate].
  - apply (handleAnchor_version_gate agreeing config None "0.27.0" "0.27.0");
      reflexivity.
Defined.

Lemma exit_code_not_inspected_witness :
  snd (handleAnchor agreeing config None) = Fulfilled tt /\
  snd (handleShank agreeing config None) = Fulfilled tt.
Proof.
  pose proof (exit_code_not_inspected agreeing config config None
                [StdoutData "building"]
                [StderrData "done"; OnClose (Some 1%Z) None]
                (Some 1%Z) None eq_refl eq_refl) as (_ & HA & HS).
  split.
  - apply (HA "0.27.0" "idl"); reflexivity.
  - apply (HS _ (shank_idl_args config) (in_program_dir config) (Some false)
              shank "0.0.12" "idl"); reflexivity.
Defined.

Lemma exit_hands_off_once_witness :
  filter is_codegen_call (fst (handleAnchor agreeing config None))
  = [EnhanceIdl config "0.27.0" "0.27.0";
     GenerateTypeScriptSDK "idl" "sdk" None None None (Some true)]
  /\
  filter is_codegen_call (fst (handleShank agreeing config None))
  = [EnhanceIdl config "0.0.12" "0.0.12";
     GenerateTypeScriptSDK "idl" "sdk" None None None (Some false)].
Proof.
  pose proof (exit_hands_off_once agreeing config config None
                [StdoutData "building"]
                [StderrData "done"; OnClose (Some 1%Z) None]
                (Some 1%Z) None eq_refl eq_refl) as (HA & HS).
  split.
  - apply (HA "0.27.0" "idl"); reflexivity.
  - apply (HS _ (shank_idl_args config) (in_program_dir config) (Some false)
              shank "0.0.12" "idl"); reflexivity.
Defined.

Lemma toml_version_of_entry_witness :
  snd (getAnchorVersionInToml agreeing "program/Cargo.toml")
    = Fulfilled "0.27.0" /\
  snd (getAnchorVersionInToml with_features "program/Cargo.toml")
    = Fulfilled "0.27.0".
Proof.
  split.
  - apply (toml_version_of_entry agreeing "program/Cargo.toml"
             "[dependencies]" (manifest (DepString "0.27.0"))
             {[ "anchor-lang" := DepString "0.27.0" ]}
             eq_refl eq_refl eq_refl).
    reflexivity.
  - apply (proj2 (toml_version_of_entry with_features "program/Cargo.toml"
             "[dependencies]" _ _ eq_refl eq_refl eq_refl)
             "0.27.0"
             {[ "features" := TomlArray [TomlString "init-if-needed"] ]}).
    reflexivity.
Defined.



Lemma handle_aborts_without_binVersion_witness :
  exists msg,
    snd (handleShank Cases.asks_then_unprobed config None)
      = Rejected (VError (Error msg)) /\
    msg = "rustbin was unable to determine installed version "
            +:+ "shank" +:+ ", it may "
            +:+ "not have been installed correctly." /\
    includes msg "shank" = true /\
    filter is_spawn (fst (handleShank Cases.asks_then_unprobed config None))
      = [].
Proof.
  apply (handle_aborts_without_binVersion Cases.asks_then_unprobed config
           (shank_rustbin Cases.asks_then_unprobed config)
           (shank_idl_args config) (in_program_dir config) None (Some false)
           unprobed); reflexivity.
Defined.



Lemma probe_pattern_decides_witness :
  (exists reason,
     snd (getAnchorCommandVersion silent_probe) = Rejected reason /\
     (true = true -> Some 0%Z = Some 0%Z ->
      reason = VString "Anchor version matching failed"))
  /\
  (exists v',
     snd (getAnchorCommandVersion agreeing) = Fulfilled v' /\
     Regex.exec re ("anchor-cli 0.27.0" +:+ newline +:+ "")
       = Some ("anchor-cli " +:+ v', Some v') /\
     reports_version ("anchor-cli 0.27.0" +:+ newline +:+ "") v').
Proof.
  split.
  - apply (proj1 (probe_pattern_decides silent_probe
                    [StdoutData "anchor 0.27.0"; OnExit (Some 0%Z) None]
                    (Some 0%Z) None eq_refl)).
    intros v Hv. apply (re_exec_complete _ _ Hv). reflexivity.
  - apply (proj2 (probe_pattern_decides agreeing
                    [StdoutData ("anchor-cli 0.27.0" +:+ newline);
                     OnExit (Some 0%Z) None]
                    (Some 0%Z) None eq_refl) eq_refl eq_refl "0.27.0").
    exists "", "0", "27", "0", newline. repeat split.
Defined.

Lemma probe_rejects_nonzero_exit_witness :
  exists msg,
    snd (getAnchorCommandVersion failing_probe)
      = Rejected (VError (Error msg)) /\
    msg = "Process exited with code " +:+ number_to_string 1 /\
    includes msg (number_to_string 1) = true.
Proof.
  apply (probe_rejects_nonzero_exit failing_probe
           [StdoutData "anchor-cli 0.27.0"; OnExit (Some 1%Z) None]
           1%Z None eq_refl eq_refl).
  discriminate.
Defined.

Lemma codegen_failure_leaves_pending_witness :
  (snd (handleAnchor sdk_fails config None) = Pending /\
   In (UnhandledRejection (VString "cannot write sdk"))
      (fst (handleAnchor sdk_fails config None)))
  /\
  (snd (handleShank sdk_fails config None) = Pending /\
   In (UnhandledRejection (VString "cannot write sdk"))
      (fst (handleShank sdk_fails config None))).
Proof.
  pose proof (codegen_failure_leaves_pending sdk_fails config config None
                [StdoutData "building"]
                [StderrData "done"; OnClose (Some 0%Z) None]
                (Some 0%Z) None (VString "cannot write sdk")
                eq_refl eq_refl) as (HA & HS).
  split.
  - apply (HA "0.27.0"); try reflexivity.
    right. exists "idl". split; reflexivity.
  - apply (HS _ (shank_idl_args config) (in_program_dir config) (Some false)
              shank "0.0.12"); try reflexivity.
    right. exists "idl". split; reflexivity.
Defined.

(** The first settlement stands: after the ['error'] of a failed spawn the
    ['close'] with the negative errno changes nothing. *)
Example probe_error_then_close :
  getAnchorCommandVersion anchor_missing
  = ([Spawn "anchor" ["--version"] {| cwd := None; stdio := Some "pipe" |}],
     Rejected (VString "Anchor is not installed!")).
Proof. reflexivity. Qed.

(** The leftmost match, with the longest last run of digits. *)
Example exec_leftmost_longest :
  Regex.exec re "v: anchor-cli 10.227.05rc anchor-cli 1.1.1"
  = Some ("anchor-cli 10.227.05", Some "10.227.05").
Proof. reflexivity. Qed.

Example exec_two_numbers : Regex.exec re "anchor-cli 0.27" = None.
Proof. reflexivity. Qed.

(** The probe of a child that prints a version and closes with code 1. *)
Example probe_nonzero_exit :
  snd (getAnchorCommandVersion failing_probe)
  = Rejected (VError (Error "Process exited with code 1")).
Proof. reflexivity. Qed.

End Witnesses.

(** ** The first match of the probe's pattern *)

Module GreedyFacts.
Import JsString JsStringFacts Regex RegexFacts PatternFacts.

Lemma many1_nil (cs : CharSet) (c : ascii) (t : string) :
  many1 cs (String c t) = [] -> accepts cs c = false.
Proof.
  simpl. destruct (accepts cs c); [|reflexivity].
  intros H. apply app_eq_nil in H. destruct H as [_ H]. discriminate.
Qed.

Lemma many1_head (cs : CharSet) (s m s' : string)
    (rest : list (string * string)) :
  many1 cs s = (m, s') :: rest ->
  forall c t, s' = String c t -> accepts cs c = false.
Proof.
  revert m s' rest. induction s as [|x s IH]; intros m s' rest H c t Hs';
    simpl in H; [discriminate|].
  destruct (accepts cs x); [|discriminate].
  destruct (many1 cs s) as [|[m0 s0] l] eqn:E.
  - simpl in H. injection H as _ <- _. subst s. exact (many1_nil _ _ _ E).
  - simpl in H. injection H as _ <- _. exact (IH _ _ _ eq_refl _ _ Hs').
Qed.

Lemma flat_map_head {A B : Type} (f : A -> list B) (l : list A) (y : B)
    (rest : list B) :
  flat_map f l = y :: rest -> exists x rest', In x l /\ f x = y :: rest'.
Proof.
  induction l as [|x l IH]; simpl; [discriminate|].
  destruct (f x) as [|y0 l0] eqn:E.
  - intros H. destruct (IH H) as (x' & rest' & Hin & Hx'). eauto.
  - intros H. injection H as <- _. exists x, l0. auto.
Qed.

Lemma stops_many1_digit : stops_at_nondigit (Many1 DigitClass).
Proof.
  intros s cap m s' cap' rest H. simpl in H.
  destruct (many1 DigitClass s) as [|[m0 s0] l] eqn:E; [discriminate|].
  simpl in H. injection H as _ <- _ _.
  destruct s0 as [|c t]; [reflexivity|]. simpl.
  now rewrite (many1_head _ _ _ _ _ E c t eq_refl : is_digit c = false).
Qed.

Lemma stops_seq (r1 r2 : Regex) :
  stops_at_nondigit r2 -> stops_at_nondigit (Seq r1 r2).
Proof.
  intros H2 s cap m s' cap' rest H. simpl in H.
  apply flat_map_head in H. destruct H as ([[m1 s1] cap1] & rest' & _ & H).
  destruct (run r2 s1 cap1) as [|[[m2 s2] cap2] l] eqn:E; [discriminate|].
  simpl in H. injection H as _ <- _ _. exact (H2 _ _ _ _ _ _ E).
Qed.

Lemma stops_group (r : Regex) :
  stops_at_nondigit r -> stops_at_nondigit (Group r).
Proof.
  intros Hr s cap m s' cap' rest H. simpl in H.
  destruct (run r s cap) as [|[[m0 s0] cap0] l] eqn:E; [discriminate|].
  simpl in H. injection H as _ <- _ _. exact (Hr _ _ _ _ _ _ E).
Qed.

Lemma stops_re : stops_at_nondigit re.
Proof.
  unfold re, semver.
  repeat first [apply stops_seq | apply stops_group].
  apply stops_many1_digit.
Qed.

Lemma digits_all (s : string) : digits s = true -> all_digits s = true.
Proof. destruct s; [discriminate | trivial]. Qed.

(** A run of digits that stops in front of a non-digit is determined by the
    text it is cut from. *)
Lemma digit_run_unique (x : string) :
  forall x' r r',
    all_digits x = true -> all_digits x' = true ->
    no_digit_ahead r = true -> no_digit_ahead r' = true ->
    x +:+ r = x' +:+ r' -> x = x' /\ r = r'.
Proof.
  induction x as [|c x IH]; intros [|c' x'] r r' Hx Hx' Hr Hr' Heq.
  - now rewrite !append_nil_l in Heq.
  - rewrite append_nil_l, append_cons in Heq. subst r.
    simpl in Hx', Hr. apply andb_true_iff in Hx'. destruct Hx' as [Hc _].
    rewrite Hc in Hr. discriminate.
  - rewrite append_nil_l, append_cons in Heq. subst r'.
    simpl in Hx, Hr'. apply andb_true_iff in Hx. destruct Hx as [Hc _].
    rewrite Hc in Hr'. discriminate.
  - rewrite !append_cons in Heq. injection Heq as <- Heq.
    simpl in Hx, Hx'. apply andb_true_iff in Hx, Hx'.
    destruct (IH x' r r') as [-> ->]; tauto.
Qed.

Lemma semver_unique (a b c a' b' c' post post' : string) :
  digits a = true -> digits b = true -> digits c = true ->
  digits a' = true -> digits b' = true -> digits c' = true ->
  no_digit_ahead post = true -> no_digit_ahead post' = true ->
  (a +:+ "." +:+ b +:+ "." +:+ c) +:+ post
    = (a' +:+ "." +:+ b' +:+ "." +:+ c') +:+ post' ->
  a = a' /\ b = b' /\ c = c' /\ post = post'.
Proof.
  intros Ha Hb Hc Ha' Hb' Hc' Hp Hp' Heq.
  rewrite !append_assoc in Heq.
  apply digit_run_unique in Heq; [|now auto using digits_all ..].
  destruct Heq as [-> Heq]. apply append_inv_head in Heq.
  apply digit_run_unique in Heq; [|now auto using digits_all ..].
  destruct Heq as [-> Heq]. apply append_inv_head in Heq.
  apply digit_run_unique in Heq; [|now auto using digits_all ..].
  destruct Heq as [-> ->]. auto.
Qed.

Lemma run_re_other_letter (c : ascii) (t : string) (cap : option string) :
  c <> "a"%char -> run re (String c t) cap = [].
Proof.
  intros Hc. apply Ascii.eqb_neq in Hc.
  unfold re. cbn [lit]. cbn [run accepts]. rewrite Hc. reflexivity.
Qed.

Lemma exec_re_skip (pre t : string) :
  includes pre "a" = false -> exec re (pre +:+ t) = exec re t.
Proof.
  induction pre as [|c pre IH]; intros Hno; [reflexivity|].
  rewrite includes_eq in Hno. apply orb_false_iff in Hno.
  destruct Hno as [Hc Hno]. rewrite append_cons, exec_eq.
  rewrite run_re_other_letter; [now apply IH|].
  intros ->. simpl in Hc. now destruct pre.
Qed.

(** The pattern reads back a version that stands at the start of the text
    and is not followed by a digit. *)
Lemma exec_re_printed (a b c post : string) :
  digits a = true -> digits b = true -> digits c = true ->
  no_digit_ahead post = true ->
  let v := a +:+ "." +:+ b +:+ "." +:+ c in
  exec re ("anchor-cli " +:+ v +:+ post) = Some ("anchor-cli " +:+ v, Some v).
Proof.
  intros Ha Hb Hc Hpost v. rewrite exec_eq.
  assert (D : denotes re ("anchor-cli " +:+ v)).
  { exists "anchor-cli ", v. split; [reflexivity|].
    split; [now apply denotes_lit|]. apply denotes_semver.
    exists a, b, c. auto. }
  destruct (run_complete re _ post None D) as [cap0 Hin0].
  rewrite append_assoc in Hin0.
  destruct (run re ("anchor-cli " +:+ v +:+ post) None)
    as [|[[m s'] cap] l] eqn:E; [destruct Hin0|].
  pose proof (stops_re _ _ _ _ _ _ E) as Hs'.
  assert (Hin : In (m, s', cap) (run re ("anchor-cli " +:+ v +:+ post) None))
    by (rewrite E; now left).
  apply run_group_last in Hin.
  destruct Hin as (m1 & v' & -> & Hsplit & -> & D1 & Dv).
  apply denotes_lit in D1. subst m1.
  apply denotes_semver in Dv.
  destruct Dv as (a' & b' & c' & -> & Ha' & Hb' & Hc').
  rewrite append_assoc in Hsplit. apply append_inv_head in Hsplit.
  destruct (semver_unique a b c a' b' c' post s') as (-> & -> & -> & _); auto.
Qed.

End GreedyFacts.

(** ** The handlers on any stream of events *)

Section StreamFacts.
Import JsString JsStringFacts PatternFacts GreedyFacts.

Context {Idl PrettierOptions : Type} (host : Host Idl PrettierOptions).

(** *** The probe *)

Lemma settle_settled {A : Type} (p new : Settled A) :
  p <> Pending -> settle p new = p.
Proof. destruct p; [now intros [] | reflexivity | reflexivity]. Qed.

Lemma probe_fold_settled (evs : list ChildEvent) :
  forall s p, p <> Pending -> snd (fold_left probe_on evs (s, p)) = p.
Proof.
  induction evs as [|ev evs IH]; intros s p Hp; [reflexivity|].
  rewrite fold_left_cons.
  destruct ev as [buf|buf|err|code sig|code sig]; cbn [probe_on].
  - now apply IH.
  - now apply IH.
  - destruct (_ && _); rewrite (settle_settled _ _ Hp); now apply IH.
  - now apply IH.
  - destruct code as [[|n|n]|];
      try destruct (Regex.exec re s) as [[m [g|]]|];
      rewrite ?(settle_settled _ _ Hp); now apply IH.
Qed.

Lemma probe_fold_versions (evs : list ChildEvent) :
  forall s p,
    (forall v, p = Fulfilled v -> reports_version s v) ->
    forall v,
      snd (fold_left probe_on evs (s, p)) = Fulfilled v ->
      reports_version (s +:+ stdout_of evs) v.
Proof.
  induction evs as [|ev evs IH]; intros s p Hp v Hv.
  - simpl in *. rewrite append_nil_r. now apply Hp.
  - rewrite fold_left_cons in Hv.
    assert (Hkeep : forall q : Value, forall w,
              settle p (Rejected q) = Fulfilled w -> reports_version s w).
    { intros q w. destruct p; cbn; try discriminate. intros H. now apply Hp. }
    destruct ev as [buf|buf|err|code sig|code sig];
      cbn [probe_on stdout_of] in *.
    + rewrite <- append_assoc. apply (IH _ p); [|exact Hv].
      intros w Hw. apply reports_version_append. now apply Hp.
    + now apply (IH _ p).
    + destruct (_ && _); exact (IH _ _ (Hkeep _) _ Hv).
    + now apply (IH _ p).
    + destruct code as [[|n|n]|]; try exact (IH _ _ (Hkeep _) _ Hv).
      destruct (Regex.exec re s) as [[m [g|]]|] eqn:E;
        [|exact (IH _ _ Hp _ Hv)|exact (IH _ _ (Hkeep _) _ Hv)].
      eapply IH; [|exact Hv]. intros w Hw.
      destruct p; cbn in Hw; [|now apply Hp|discriminate].
      injection Hw as <-. apply re_exec_sound in E.
      destruct E as (g' & _ & Hg & Hrep). now injection Hg as <-.
Qed.

(** *** IDL generation *)

Lemma idlGenerator_fold_effects (config : SolitaConfig)
    (binVersion libVersion : string) (prettierConfig : option PrettierOptions)
    (ara : option bool) (evs : list ChildEvent) :
  forall es p,
    fst (fold_left
           (idlGenerator_on host config binVersion libVersion prettierConfig ara)
           evs (es, p))
    = es ++ flat_map
              (idlGenerator_effects host config binVersion libVersion
                 prettierConfig ara) evs.
Proof.
  induction evs as [|ev evs IH]; intros es p.
  - simpl. now rewrite app_nil_r.
  - rewrite fold_left_cons. cbn [flat_map].
    destruct ev as [buf|buf|err|code sig|code sig];
      cbn [idlGenerator_on idlGenerator_effects]; cbv zeta; unfold unhandled.
    + now rewrite IH, <- app_assoc.
    + now rewrite IH, <- app_assoc.
    + now rewrite IH, <- app_assoc.
    + destruct (idlGenerator_exit _ _ _ _ _ _) as [es' [|[]|reason]];
        cbn [fst snd]; rewrite IH, <- ?app_assoc, ?app_nil_r; reflexivity.
    + now rewrite IH.
Qed.

Lemma generateIdl_effects (config : SolitaConfig) (command : string)
    (spawnArgs : list string) (spawnOpts : SpawnOptions)
    (binVersion libVersion : string) (prettierConfig : option PrettierOptions)
    (ara : option bool) :
  fst (generateIdl host config command spawnArgs spawnOpts binVersion
         libVersion prettierConfig ara)
  = Spawn command spawnArgs spawnOpts
      :: flat_map
           (idlGenerator_effects host config binVersion libVersion
              prettierConfig ara)
           (spawn host command spawnArgs spawnOpts).
Proof. unfold generateIdl. now rewrite idlGenerator_fold_effects. Qed.

Lemma idlGenerator_fold_settled (config : SolitaConfig)
    (binVersion libVersion : string) (prettierConfig : option PrettierOptions)
    (ara : option bool) (evs : list ChildEvent) :
  forall es p,
    p <> Pending ->
    snd (fold_left
           (idlGenerator_on host config binVersion libVersion prettierConfig ara)
           evs (es, p))
    = p.
Proof.
  induction evs as [|ev evs IH]; intros es p Hp; [reflexivity|].
  rewrite fold_left_cons.
  destruct ev as [buf|buf|err|code sig|code sig]; cbn [idlGenerator_on];
    try (now apply IH).
  - rewrite (settle_settled _ _ Hp). now apply IH.
  - destruct (idlGenerator_exit _ _ _ _ _ _) as [es' [|[]|reason]];
      rewrite ?(settle_settled _ _ Hp); now apply IH.
Qed.

Lemma filter_flat_map {A B : Type} (f : B -> bool) (g : A -> list B)
    (l : list A) :
  filter f (flat_map g l) = flat_map (fun x => filter f (g x)) l.
Proof.
  induction l as [|x l IH]; [reflexivity|].
  cbn [flat_map]. now rewrite filter_app, IH.
Qed.

Lemma flat_map_nil {A B : Type} (g : A -> list B) (l : list A) :
  (forall x, In x l -> g x = []) -> flat_map g l = [].
Proof.
  induction l as [|x l IH]; intros H; [reflexivity|].
  cbn [flat_map]. rewrite (H x) by now left.
  apply IH. intros y Hy. apply H. now right.
Qed.

(** The listener of ['exit'] spawns nothing and writes nothing. *)
Lemma idlGenerator_exit_quiet (config : SolitaConfig)
    (binVersion libVersion : string) (prettierConfig : option PrettierOptions)
    (ara : option bool) :
  let listener :=
    idlGenerator_exit host config binVersion libVersion prettierConfig ara in
  filter is_spawn (fst listener ++ unhandled listener) = [] /\
  filter is_write (fst listener ++ unhandled listener) = [].
Proof.
  cbv zeta. unfold unhandled. rewrite idlGenerator_exit_eq. cbv zeta.
  destruct (enhanceIdl host config binVersion libVersion) as [|idl|reason];
    cbn [fst snd]; [now split| |now split].
  destruct (generateTypeScriptSDK _ _ _ _ _ _ _) as [|[]|reason]; now split.
Qed.

(** *** The orchestrators from the spawn on *)

Lemma handleAnchor_ready (config : SolitaConfig)
    (prettierConfig : option PrettierOptions) (v : string) :
  anchor_ready host config v ->
  let run :=
    generateIdl host config "anchor" (anchor_build_args config)
      (in_program_dir config) v v prettierConfig
      (anchorRemainingAccounts config) in
  handleAnchor host config prettierConfig
  = ([Spawn "anchor" ["--version"] {| cwd := None; stdio := Some "pipe" |};
      ReadFile (manifest_path host config)] ++ fst run,
     snd run).
Proof.
  intros [Hprobe Htoml] run.
  rewrite (handleAnchor_eq _ _ _ _ _ Hprobe Htoml). cbv zeta.
  now rewrite String.eqb_refl.
Qed.

Lemma handle_ready (config : SolitaConfig) (rustbinConfig : RustbinConfig)
    (spawnArgs : list string) (spawnOpts : SpawnOptions)
    (prettierConfig : option PrettierOptions) (ara : option bool)
    (matched : RustbinMatchReturn) (installed : string) :
  installed_as host rustbinConfig matched installed ->
  let run :=
    generateIdl host config (fullPathToBinary matched) spawnArgs spawnOpts
      installed (libVersion matched) prettierConfig ara in
  handle host config rustbinConfig spawnArgs spawnOpts prettierConfig ara
  = ((RustbinMatch rustbinConfig
        :: fst (rustbinMatch host rustbinConfig confirmAutoMessageLog))
       ++ fst run,
     snd run).
Proof.
  intros [Hm Hbin] run. now rewrite (handle_eq _ _ _ _ _ _ _ _ Hm), Hbin.
Qed.

Lemma generateIdl_writes (config : SolitaConfig) (command : string)
    (spawnArgs : list string) (spawnOpts : SpawnOptions)
    (binVersion libVersion : string) (prettierConfig : option PrettierOptions)
    (ara : option bool) :
  filter is_write
    (fst (generateIdl host config command spawnArgs spawnOpts binVersion
            libVersion prettierConfig ara))
  = passthrough (spawn host command spawnArgs spawnOpts).
Proof.
  rewrite generateIdl_effects.
  change (?e :: ?l) with ([e] ++ l). rewrite filter_app, filter_flat_map.
  cbn [app]. change (filter is_write [_]) with (@nil (Effect Idl PrettierOptions)).
  cbn [app]. unfold passthrough. apply flat_map_ext.
  intros [buf|buf|err|code sig|code sig]; try reflexivity.
  apply idlGenerator_exit_quiet.
Qed.

Lemma generateIdl_spawns (config : SolitaConfig) (command : string)
    (spawnArgs : list string) (spawnOpts : SpawnOptions)
    (binVersion libVersion : string) (prettierConfig : option PrettierOptions)
    (ara : option bool) :
  filter is_spawn
    (fst (generateIdl host config command spawnArgs spawnOpts binVersion
            libVersion prettierConfig ara))
  = [Spawn command spawnArgs spawnOpts].
Proof.
  rewrite generateIdl_effects.
  change (?e :: ?l) with ([e] ++ l). rewrite filter_app, filter_flat_map.
  rewrite flat_map_nil; [reflexivity|].
  intros [buf|buf|err|code sig|code sig] _; try reflexivity.
  apply idlGenerator_exit_quiet.
Qed.

Lemma generateIdl_no_exit (config : SolitaConfig) (command : string)
    (spawnArgs : list string) (spawnOpts : SpawnOptions)
    (binVersion libVersion : string) (prettierConfig : option PrettierOptions)
    (ara : option bool) :
  forallb (fun ev => negb (is_exit ev)) (spawn host command spawnArgs spawnOpts)
    = true ->
  let run :=
    generateIdl host config command spawnArgs spawnOpts binVersion libVersion
      prettierConfig ara in
  filter is_codegen_call (fst run) = [] /\ snd run <> Fulfilled tt.
Proof.
  intros Hno run. subst run. split.
  - rewrite generateIdl_effects.
    change (?e :: ?l) with ([e] ++ l). rewrite filter_app, filter_flat_map.
    rewrite flat_map_nil; [reflexivity|].
    intros ev Hin. rewrite forallb_forall in Hno. specialize (Hno ev Hin).
    destruct ev as [buf|buf|err|code sig|code sig]; try reflexivity.
    discriminate Hno.
  - unfold generateIdl.
    generalize ([Spawn command spawnArgs spawnOpts] : list (Effect Idl PrettierOptions)).
    assert (Hp : (Pending : Settled unit) <> Fulfilled tt) by discriminate.
    revert Hp. generalize (Pending : Settled unit).
    induction (spawn host command spawnArgs spawnOpts) as [|ev evs IH];
      intros p Hp es; [exact Hp|].
    simpl in Hno. apply andb_true_iff in Hno. destruct Hno as [Hev Hno].
    rewrite fold_left_cons.
    destruct ev as [buf|buf|err|code sig|code sig]; try discriminate Hev;
      cbn [idlGenerator_on]; apply IH; trivial.
    destruct p; cbn; [discriminate | exact Hp | discriminate].
Qed.

Lemma generateIdl_error_first (config : SolitaConfig) (command : string)
    (spawnArgs : list string) (spawnOpts : SpawnOptions)
    (binVersion libVersion : string) (prettierConfig : option PrettierOptions)
    (ara : option bool) (pre post : list ChildEvent) (err : JsError) :
  spawn host command spawnArgs spawnOpts = pre ++ OnError err :: post ->
  forallb exited pre = true ->
  snd (generateIdl host config command spawnArgs spawnOpts binVersion
         libVersion prettierConfig ara)
  = Rejected (VError err).
Proof.
  intros Hev Hpre. unfold generateIdl.
  rewrite Hev, fold_left_app, (idlGenerator_fold_exited _ _ _ _ _ _ _ Hpre).
  rewrite fold_left_cons. cbn [idlGenerator_on settle].
  now apply idlGenerator_fold_settled.
Qed.

Lemma generateIdl_generates_into (config : SolitaConfig) (command : string)
    (spawnArgs : list string) (spawnOpts : SpawnOptions)
    (binVersion libVersion : string) (prettierConfig : option PrettierOptions)
    (ara : option bool) :
  Forall (generates_into (sdkDir config) ara)
    (fst (generateIdl host config command spawnArgs spawnOpts binVersion
            libVersion prettierConfig ara)).
Proof.
  rewrite generateIdl_effects. constructor; [exact I|].
  induction (spawn host command spawnArgs spawnOpts) as [|ev evs IH];
    [constructor|].
  cbn [flat_map]. apply Forall_app. split; [|exact IH].
  destruct ev as [buf|buf|err|code sig|code sig];
    cbn [idlGenerator_effects]; repeat constructor.
  cbv zeta. unfold unhandled. rewrite idlGenerator_exit_eq. cbv zeta.
  destruct (enhanceIdl host config binVersion libVersion) as [|idl|reason];
    cbn [fst snd app]; repeat constructor.
  destruct (generateTypeScriptSDK _ _ _ _ _ _ _) as [|[]|reason];
    cbn [app]; repeat constructor.
Qed.

Lemma toml_generates_into (path dir : string) (flag : option bool) :
  Forall (generates_into (Idl:=Idl) (PrettierOptions:=PrettierOptions) dir flag)
    (fst (getAnchorVersionInToml host path)).
Proof.
  unfold getAnchorVersionInToml, parseCargoToml, try_catch, call, bind.
  destruct (readFile host path) as [|text|r]; cbn; repeat constructor.
  unfold of_completion. destruct (parse host text) as [p|r]; cbn;
    repeat constructor.
  destruct (dependencies p) as [table|]; [|repeat constructor].
  destruct (table !! "anchor-lang") as [[w|w others]|]; repeat constructor.
Qed.

(** ** Further properties *)

(** X1: when the manifest cannot be read, [parseCargoToml] logs the failure
    once, with the path and the reason, and is rejected with the reason of
    [fs.readFile] as it is; [getAnchorVersionInToml] does the same and
    nothing more. *)
Theorem parseCargoToml_read_failure (path : string) (reason : Value) :
  readFile host path = Rejected reason ->
  parseCargoToml host path
  = ([ReadFile path;
      LogError ("Failed to read Cargo.toml at " +:+ quote +:+ "%s" +:+ quote
                  +:+ newline)
        [VString path; reason]],
     Rejected reason)
  /\
  getAnchorVersionInToml host path
  = (fst (parseCargoToml host path), Rejected reason).
Proof.
  intros Hread.
  unfold getAnchorVersionInToml, parseCargoToml, try_catch, call, bind.
  rewrite Hread. split; reflexivity.
Qed.

(** X2: when the manifest is read but [parse] throws, [parseCargoToml] logs
    the failure once, with the text read and the reason, and is rejected
    with what [parse] threw; [getAnchorVersionInToml] does the same and
    nothing more. *)
Theorem parseCargoToml_parse_failure (path text : string) (reason : Value) :
  readFile host path = Fulfilled text ->
  parse host text = Throw reason ->
  parseCargoToml host path
  = ([ReadFile path;
      LogError ("Failed to parse Cargo.toml:" +:+ newline +:+ "%s" +:+ newline
                  +:+ "%s")
        [VString text; reason]],
     Rejected reason)
  /\
  getAnchorVersionInToml host path
  = (fst (parseCargoToml host path), Rejected reason).
Proof.
  intros Hread Hparse.
  unfold getAnchorVersionInToml, parseCargoToml, try_catch, call, bind.
  rewrite Hread. unfold of_completion. rewrite Hparse. split; reflexivity.
Qed.

(** X3: [parseCargoToml] is fulfilled with a table and a text exactly when
    the text is what was read at the path and the table is what [parse]
    made of that text; it then did nothing but read the file. *)
Theorem parseCargoToml_fulfilled (path toml : string) (parsed : CargoToml) :
  (snd (parseCargoToml host path) = Fulfilled (parsed, toml)
   <->
   readFile host path = Fulfilled toml /\ parse host toml = Normal parsed)
  /\
  (snd (parseCargoToml host path) = Fulfilled (parsed, toml) ->
   fst (parseCargoToml host path) = [ReadFile path]).
Proof.
  unfold parseCargoToml, try_catch, call, bind.
  destruct (readFile host path) as [|text|reason] eqn:Hread; cbn.
  - split; [split; [discriminate | intros (H & _); discriminate]
           | discriminate].
  - unfold of_completion.
    destruct (parse host text) as [p|reason] eqn:Hparse; cbn.
    + split; [|reflexivity]. split.
      * intros H. injection H as <- <-. auto.
      * intros (H & Hp). injection H as <-. rewrite Hparse in Hp.
        now injection Hp as <-.
    + split; [|discriminate]. split; [discriminate|].
      intros (H & Hp). injection H as <-. rewrite Hparse in Hp.
      discriminate.
  - split; [split; [discriminate | intros (H & _); discriminate]
           | discriminate].
Qed.

(** X4: while the probe is not fulfilled, [handleAnchor] ends as the probe
    does, rejected with the probe's reason or pending with it, and has done
    nothing but spawn the probe: the manifest is not read. *)
Theorem handleAnchor_stops_at_probe (config : SolitaConfig)
    (prettierConfig : option PrettierOptions) :
  (forall v, snd (getAnchorCommandVersion host) <> Fulfilled v) ->
  fst (handleAnchor host config prettierConfig)
    = [Spawn "anchor" ["--version"] {| cwd := None; stdio := Some "pipe" |}]
  /\
  match snd (getAnchorCommandVersion host) with
  | Rejected reason =>
      snd (handleAnchor host config prettierConfig) = Rejected reason
  | _ => snd (handleAnchor host config prettierConfig) = Pending
  end.
Proof.
  intros Hnot. unfold handleAnchor.
  unfold getAnchorCommandVersion in *. cbn [snd] in Hnot.
  unfold bind at 1.
  destruct (snd (fold_left probe_on _ _)) as [|v|reason]; cbn [fst snd];
    [now split | now destruct (Hnot v) | now split].
Qed.

(** X5: when the probe gave a version and the manifest lookup is rejected,
    for a file that cannot be read, a text that cannot be parsed or a
    missing dependency, [handleAnchor] is rejected with the reason of the
    lookup; the probe is the only process spawned and no code-generation
    collaborator is called. *)
Theorem handleAnchor_stops_at_manifest (config : SolitaConfig)
    (prettierConfig : option PrettierOptions) (cli : string) (reason : Value) :
  snd (getAnchorCommandVersion host) = Fulfilled cli ->
  snd (getAnchorVersionInToml host (manifest_path host config))
    = Rejected reason ->
  snd (handleAnchor host config prettierConfig) = Rejected reason /\
  filter is_spawn (fst (handleAnchor host config prettierConfig))
    = [Spawn "anchor" ["--version"] {| cwd := None; stdio := Some "pipe" |}] /\
  filter is_codegen_call (fst (handleAnchor host config prettierConfig)) = [].
Proof.
  intros Hprobe Htoml.
  assert (Hquiet :
    filter is_spawn
      (fst (getAnchorVersionInToml host (manifest_path host config))) = [] /\
    filter is_codegen_call
      (fst (getAnchorVersionInToml host (manifest_path host config))) = []).
  { unfold getAnchorVersionInToml, parseCargoToml, try_catch, call, bind.
    destruct (readFile host _) as [|text|r]; cbn; [now split| |now split].
    unfold of_completion. destruct (parse host text) as [p|r]; cbn;
      [|now split].
    destruct (dependencies p) as [table|]; [|now split].
    destruct (table !! "anchor-lang") as [[w|w others]|]; now split. }
  unfold handleAnchor. fold (manifest_path host config).
  destruct (getAnchorVersionInToml host (manifest_path host config))
    as [es2 r2]. cbn [fst snd] in Htoml, Hquiet. subst r2.
  unfold getAnchorCommandVersion in *. cbn [snd] in Hprobe.
  unfold bind. rewrite Hprobe. cbn [fst snd].
  destruct Hquiet as [Hs Hc].
  change (?e :: es2) with ([e] ++ es2). rewrite !filter_app, Hs, Hc. auto.
Qed.

(** X6: while the installer does not answer with a binary, whatever it
    asked to be confirmed before, [handle] ends as the installer does,
    rejected with its reason or pending with it; [handle] spawns no process
    and calls no code-generation collaborator. *)
Theorem handle_stops_at_installer (config : SolitaConfig)
    (rustbinConfig : RustbinConfig) (spawnArgs : list string)
    (spawnOpts : SpawnOptions) (prettierConfig : option PrettierOptions)
    (ara : option bool) :
  (forall matched,
     snd (rustbinMatch host rustbinConfig confirmAutoMessageLog)
       <> Fulfilled matched) ->
  filter is_spawn
    (fst (handle host config rustbinConfig spawnArgs spawnOpts prettierConfig
            ara)) = []
  /\
  filter is_codegen_call
    (fst (handle host config rustbinConfig spawnArgs spawnOpts prettierConfig
            ara)) = []
  /\
  match snd (rustbinMatch host rustbinConfig confirmAutoMessageLog) with
  | Rejected reason =>
      snd (handle host config rustbinConfig spawnArgs spawnOpts
             prettierConfig ara) = Rejected reason
  | _ =>
      snd (handle host config rustbinConfig spawnArgs spawnOpts
             prettierConfig ara) = Pending
  end.
Proof.
  intros Hnot.
  destruct (rustbinMatch_quiet host rustbinConfig) as (Hs & Hc & _).
  unfold handle, emit, bind.
  destruct (rustbinMatch host rustbinConfig confirmAutoMessageLog)
    as [es [|matched|reason]]; cbn [fst snd app] in *;
    [auto | now destruct (Hnot matched) | auto].
Qed.

(** X7: the first ['error'] of the probe's child decides the probe, whatever
    the child emits afterwards, a ['close'] with any code included: the
    rejection is the not-installed message when the error is named [Error]
    and its message holds [ENOENT], and the error itself otherwise. *)
Theorem probe_first_error_decides (pre post : list ChildEvent)
    (error : JsError) :
  probe_events host = pre ++ OnError error :: post ->
  forallb running pre = true ->
  snd (getAnchorCommandVersion host) = Rejected (probe_error_reason error).
Proof.
  intros Hev Hpre. unfold getAnchorCommandVersion. cbn [snd].
  unfold probe_events in Hev. rewrite Hev, fold_left_app.
  rewrite (probe_fold_running _ Hpre), fold_left_cons.
  cbn [probe_on]. unfold probe_error_reason.
  destruct (_ && _); cbn [settle]; now apply probe_fold_settled.
Qed.

(** X8: a probe whose child emits neither ['error'] nor ['close'] stays
    pending, also after the child's ['exit'], and [handleAnchor] stays
    pending with it, having done nothing but spawn the probe. *)
Theorem probe_pending_without_close (config : SolitaConfig)
    (prettierConfig : option PrettierOptions) :
  forallb running (probe_events host) = true ->
  snd (getAnchorCommandVersion host) = Pending /\
  handleAnchor host config prettierConfig
  = ([Spawn "anchor" ["--version"] {| cwd := None; stdio := Some "pipe" |}],
     Pending).
Proof.
  intros Hrun.
  assert (Hp : snd (getAnchorCommandVersion host) = Pending).
  { unfold getAnchorCommandVersion. cbn [snd].
    fold (probe_events host). now rewrite (probe_fold_running _ Hrun). }
  split; [exact Hp|]. unfold handleAnchor.
  unfold getAnchorCommandVersion in *. cbn [snd] in Hp.
  unfold bind at 1. now rewrite Hp.
Qed.

(** X9: when the child ran and closed with code 0, and its standard output
    is, after some text without the letter [a], [anchor-cli ] and a version
    that is not followed by a digit, the probe is fulfilled with exactly
    that version, however the output was cut into chunks. *)
Theorem probe_reads_printed_version (evs : list ChildEvent)
    (sig : option string) (pre a b c post : string) :
  probe_events host = evs ++ [OnClose (Some 0%Z) sig] ->
  forallb running evs = true ->
  stdout_of evs
    = pre +:+ "anchor-cli " +:+ (a +:+ "." +:+ b +:+ "." +:+ c) +:+ post ->
  includes pre "a" = false ->
  digits a = true -> digits b = true -> digits c = true ->
  no_digit_ahead post = true ->
  snd (getAnchorCommandVersion host)
  = Fulfilled (a +:+ "." +:+ b +:+ "." +:+ c).
Proof.
  intros Hev Hrun Hout Hpre Ha Hb Hc Hpost.
  rewrite (probe_closed _ _ _ _ Hrun Hev). cbn [probe_on].
  rewrite Hout, (exec_re_skip _ _ Hpre).
  now rewrite (exec_re_printed a b c post Ha Hb Hc Hpost).
Qed.

(** X10: whatever the events of its child, the probe is fulfilled only with
    a version, three non-empty runs of digits joined by dots, that stands
    behind [anchor-cli ] in what the child wrote to its standard output. *)
Theorem probe_fulfils_only_versions (v : string) :
  snd (getAnchorCommandVersion host) = Fulfilled v ->
  reports_version (stdout_of (probe_events host)) v.
Proof.
  intros Hv. unfold getAnchorCommandVersion in Hv. cbn [snd] in Hv.
  rewrite <- (append_nil_l (stdout_of (probe_events host))).
  apply (probe_fold_versions _ "" Pending); [discriminate | exact Hv].
Qed.

(** X11: whatever the events of the IDL generator, errors and exits
    included, the writes of a run to the handler's own output are the chunks
    of the child's standard output and standard error, each once, as they
    are and in the order they came; in [handleAnchor] and in [handle]. *)
Theorem output_forwarded (configA configS : SolitaConfig)
    (prettierConfig : option PrettierOptions) (v : string)
    (rustbinConfig : RustbinConfig) (spawnArgs : list string)
    (spawnOpts : SpawnOptions) (ara : option bool)
    (matched : RustbinMatchReturn) (installed : string) :
  anchor_ready host configA v ->
  installed_as host rustbinConfig matched installed ->
  filter is_write (fst (handleAnchor host configA prettierConfig))
  = passthrough
      (spawn host "anchor" (anchor_build_args configA)
         (in_program_dir configA))
  /\
  filter is_write
    (fst (handle host configS rustbinConfig spawnArgs spawnOpts
            prettierConfig ara))
  = passthrough (spawn host (fullPathToBinary matched) spawnArgs spawnOpts).
Proof.
  intros HA HS. split.
  - rewrite (handleAnchor_ready _ _ _ HA). cbv zeta. cbn [fst].
    rewrite filter_app, generateIdl_writes. reflexivity.
  - rewrite (handle_ready _ _ _ _ _ _ _ _ HS). cbv zeta. cbn [fst].
    rewrite filter_app, generateIdl_writes.
    now rewrite (proj2 (proj2 (rustbinMatch_quiet host rustbinConfig))).
Qed.

(** X12: whatever the events of the IDL generator, a run spawns it once and
    never again: the processes of [handleAnchor] are the probe and then
    [anchor build --idl <idlDir>] in the program directory; the one process
    of [handleShank] is the binary at the path the installer gave, not a
    binary looked up by name, with the [idl] arguments in the program
    directory. *)
Theorem spawned_once (configA configS : SolitaConfig)
    (prettierConfig : option PrettierOptions) (v : string)
    (matched : RustbinMatchReturn) (installed : string) :
  anchor_ready host configA v ->
  installed_as host (shank_rustbin host configS) matched installed ->
  filter is_spawn (fst (handleAnchor host configA prettierConfig))
  = [Spawn "anchor" ["--version"] {| cwd := None; stdio := Some "pipe" |};
     Spawn "anchor" ["build"; "--idl"; idlDir configA]
       {| cwd := Some (programDir configA); stdio := None |}]
  /\
  filter is_spawn (fst (handleShank host configS prettierConfig))
  = [Spawn (fullPathToBinary matched)
       ["idl"; "--out-dir"; idlDir configS; "--crate-root";
        programDir configS]
       {| cwd := Some (programDir configS); stdio := None |}].
Proof.
  intros HA HS. split.
  - rewrite (handleAnchor_ready _ _ _ HA). cbv zeta. cbn [fst].
    rewrite filter_app, generateIdl_spawns. reflexivity.
  - unfold handleShank. fold (shank_rustbin host configS).
    rewrite (handle_ready _ _ _ _ _ _ _ _ HS). cbv zeta. cbn [fst].
    rewrite filter_app, generateIdl_spawns.
    now rewrite (proj1 (rustbinMatch_quiet host (shank_rustbin host configS))).
Qed.

(** X13: while the IDL generator does not emit ['exit'], whatever else it
    emits, neither [enhanceIdl] nor [generateTypeScriptSDK] is called and
    the promise is not fulfilled; in [handleAnchor] and in [handle]. *)
Theorem codegen_only_after_exit (configA configS : SolitaConfig)
    (prettierConfig : option PrettierOptions) (v : string)
    (rustbinConfig : RustbinConfig) (spawnArgs : list string)
    (spawnOpts : SpawnOptions) (ara : option bool)
    (matched : RustbinMatchReturn) (installed : string) :
  anchor_ready host configA v ->
  installed_as host rustbinConfig matched installed ->
  forallb (fun ev => negb (is_exit ev))
    (spawn host "anchor" (anchor_build_args configA) (in_program_dir configA))
    = true ->
  forallb (fun ev => negb (is_exit ev))
    (spawn host (fullPathToBinary matched) spawnArgs spawnOpts) = true ->
  (filter is_codegen_call (fst (handleAnchor host configA prettierConfig)) = []
   /\ snd (handleAnchor host configA prettierConfig) <> Fulfilled tt)
  /\
  (filter is_codegen_call
     (fst (handle host configS rustbinConfig spawnArgs spawnOpts
             prettierConfig ara)) = []
   /\ snd (handle host configS rustbinConfig spawnArgs spawnOpts
             prettierConfig ara) <> Fulfilled tt).
Proof.
  intros HA HS HnoA HnoS. split.
  - rewrite (handleAnchor_ready _ _ _ HA). cbv zeta. cbn [fst snd].
    destruct (generateIdl_no_exit configA _ _ _ v v prettierConfig
                (anchorRemainingAccounts configA) HnoA) as [Hc Hp].
    split; [|exact Hp]. rewrite filter_app, Hc. reflexivity.
  - rewrite (handle_ready _ _ _ _ _ _ _ _ HS). cbv zeta. cbn [fst snd].
    destruct (generateIdl_no_exit configS _ _ _ installed (libVersion matched)
                prettierConfig ara HnoS) as [Hc Hp].
    split; [|exact Hp].
    rewrite filter_app, Hc.
    now rewrite (proj1 (proj2 (rustbinMatch_quiet host rustbinConfig))).
Qed.

(** X14: when the IDL generator emits ['error'] before any ['exit'], the
    promise is rejected with that error as it is, whatever the child emits
    afterwards, an ['exit'] followed by a successful code generation
    included; in [handleAnchor] and in [handle]. *)
Theorem generator_error_rejects (configA configS : SolitaConfig)
    (prettierConfig : option PrettierOptions) (v : string)
    (rustbinConfig : RustbinConfig) (spawnArgs : list string)
    (spawnOpts : SpawnOptions) (ara : option bool)
    (matched : RustbinMatchReturn) (installed : string)
    (pre post : list ChildEvent) (err : JsError) :
  forallb exited pre = true ->
  (anchor_ready host configA v ->
   spawn host "anchor" (anchor_build_args configA) (in_program_dir configA)
     = pre ++ OnError err :: post ->
   snd (handleAnchor host configA prettierConfig) = Rejected (VError err))
  /\
  (installed_as host rustbinConfig matched installed ->
   spawn host (fullPathToBinary matched) spawnArgs spawnOpts
     = pre ++ OnError err :: post ->
   snd (handle host configS rustbinConfig spawnArgs spawnOpts
          prettierConfig ara) = Rejected (VError err)).
Proof.
  intros Hpre. split.
  - intros HA Hev. rewrite (handleAnchor_ready _ _ _ HA). cbv zeta. cbn [snd].
    exact (generateIdl_error_first _ _ _ _ _ _ _ _ _ _ _ Hev Hpre).
  - intros HS Hev. rewrite (handle_ready _ _ _ _ _ _ _ _ HS). cbv zeta.
    cbn [snd]. exact (generateIdl_error_first _ _ _ _ _ _ _ _ _ _ _ Hev Hpre).
Qed.

(** X15: in every run, on any host, each call to [generateTypeScriptSDK]
    gets the config's SDK directory; [handleShank] always passes [false] for
    the remaining-accounts flag, whatever the config says, and
    [handleAnchor] passes the flag of its config. *)
Theorem generate_arguments (config : SolitaConfig)
    (prettierConfig : option PrettierOptions) :
  Forall (generates_into (sdkDir config) (Some false))
    (fst (handleShank host config prettierConfig))
  /\
  Forall (generates_into (sdkDir config) (anchorRemainingAccounts config))
    (fst (handleAnchor host config prettierConfig)).
Proof.
  split.
  - unfold handleShank. fold (shank_rustbin host config).
    assert (Hlog :
      Forall (generates_into (sdkDir config) (Some false))
        (fst (rustbinMatch host (shank_rustbin host config)
                confirmAutoMessageLog))).
    { unfold rustbinMatch.
      apply (Forall_impl _ _ _ (installing_logs _)).
      intros e He. destruct e; try exact I; destruct He. }
    unfold handle, emit, bind.
    destruct (rustbinMatch host (shank_rustbin host config)
                confirmAutoMessageLog) as [es [|matched|reason]];
      cbn [fst snd app] in *; [now constructor| |now constructor].
    destruct (binVersion matched) as [installed|].
    + pose proof (generateIdl_generates_into config (fullPathToBinary matched)
                    ["idl"; "--out-dir"; idlDir config; "--crate-root";
                     programDir config]
                    {| cwd := Some (programDir config); stdio := None |}
                    installed (libVersion matched) prettierConfig (Some false))
        as H.
      destruct (generateIdl _ _ _ _ _ _ _ _ _) as [es' r]. cbn [fst app] in *.
      constructor; [exact I|]. apply Forall_app. now split.
    + cbn [throw fst app]. rewrite app_nil_r. now constructor.
  - unfold handleAnchor.
    pose proof (toml_generates_into
                  (path_join host [programDir config; "Cargo.toml"])
                  (sdkDir config) (anchorRemainingAccounts config)) as Ht.
    destruct (getAnchorVersionInToml host _) as [es2 r2]. cbn [fst] in Ht.
    unfold getAnchorCommandVersion, bind at 1.
    destruct (snd (fold_left probe_on _ _)) as [|cli|reason];
      [repeat constructor| |repeat constructor].
    unfold bind.
    destruct r2 as [|declared|reason]; cbn [fst app];
      [now constructor| |now constructor].
    destruct (negb (String.eqb cli declared)).
    + cbn [throw fst app]. rewrite app_nil_r. now constructor.
    + pose proof (generateIdl_generates_into config "anchor"
                    ["build"; "--idl"; idlDir config]
                    {| cwd := Some (programDir config); stdio := None |}
                    cli declared prettierConfig
                    (anchorRemainingAccounts config)) as H.
      destruct (generateIdl _ _ _ _ _ _ _ _ _) as [es r]. cbn [fst app] in *.
      constructor; [exact I|]. apply Forall_app. split; [exact Ht | exact H].
Qed.

(** X16: after an ['exit'] of the IDL generator, when [enhanceIdl] is not
    fulfilled, rejected or pending for good, [generateTypeScriptSDK] is not
    called: the one code-generation call of the run is that [enhanceIdl],
    and the promise stays pending; in [handleAnchor] and in [handle]. *)
Theorem enhance_failure_skips_generate (configA configS : SolitaConfig)
    (prettierConfig : option PrettierOptions) (v : string)
    (rustbinConfig : RustbinConfig) (spawnArgs : list string)
    (spawnOpts : SpawnOptions) (ara : option bool)
    (matched : RustbinMatchReturn) (installed : string)
    (pre post : list ChildEvent) (code : option Z) (sig : option string) :
  forallb exited pre = true ->
  forallb exited post = true ->
  (anchor_ready host configA v ->
   spawn host "anchor" (anchor_build_args configA) (in_program_dir configA)
     = pre ++ OnExit code sig :: post ->
   (forall idl, enhanceIdl host configA v v <> Fulfilled idl) ->
   filter is_codegen_call (fst (handleAnchor host configA prettierConfig))
     = [EnhanceIdl configA v v] /\
   snd (handleAnchor host configA prettierConfig) = Pending)
  /\
  (installed_as host rustbinConfig matched installed ->
   spawn host (fullPathToBinary matched) spawnArgs spawnOpts
     = pre ++ OnExit code sig :: post ->
   (forall idl,
      enhanceIdl host configS installed (libVersion matched)
        <> Fulfilled idl) ->
   filter is_codegen_call
     (fst (handle host configS rustbinConfig spawnArgs spawnOpts
             prettierConfig ara))
     = [EnhanceIdl configS installed (libVersion matched)] /\
   snd (handle host configS rustbinConfig spawnArgs spawnOpts
          prettierConfig ara) = Pending).
Proof.
  intros Hpre Hpost.
  assert (Hrun : forall config command args opts bv lv flag,
    spawn host command args opts = pre ++ OnExit code sig :: post ->
    (forall idl, enhanceIdl host config bv lv <> Fulfilled idl) ->
    let run := generateIdl host config command args opts bv lv
                 prettierConfig flag in
    filter is_codegen_call (fst run) = [EnhanceIdl config bv lv] /\
    snd run = Pending).
  { intros config command args opts bv lv flag Hev Hnot run. subst run.
    rewrite (generateIdl_exit _ _ _ _ _ _ _ _ _ _ _ _ _ Hev Hpre Hpost).
    cbn [fst snd]. unfold unhandled. rewrite idlGenerator_exit_eq. cbv zeta.
    change (Spawn command args opts :: ?l)
      with ([Spawn command args opts] ++ l).
    destruct (enhanceIdl host config bv lv) as [|idl|reason];
      [|now destruct (Hnot idl)|]; cbn [fst snd];
      rewrite !filter_app, !passthrough_no_codegen; now split. }
  split.
  - intros HA Hev Hnot. rewrite (handleAnchor_ready _ _ _ HA). cbv zeta.
    cbn [fst snd].
    destruct (Hrun _ _ _ _ _ _ (anchorRemainingAccounts configA) Hev Hnot)
      as [Hc Hp].
    split; [|exact Hp]. rewrite filter_app, Hc. reflexivity.
  - intros HS Hev Hnot. rewrite (handle_ready _ _ _ _ _ _ _ _ HS). cbv zeta.
    cbn [fst snd]. destruct (Hrun _ _ _ _ _ _ ara Hev Hnot) as [Hc Hp].
    split; [|exact Hp].
    rewrite filter_app, Hc.
    now rewrite (proj1 (proj2 (rustbinMatch_quiet host rustbinConfig))).
Qed.

End StreamFacts.

(** ** Properties of two runs *)

Section TwoHosts.
Import JsString JsStringFacts.

Context {Idl PrettierOptions : Type} (host1 host2 : Host Idl PrettierOptions).

(** X17: the probe depends on its child's run only through the text the
    child wrote to its standard output and the code it closed with: two
    children that ran, wrote the same text, however cut into chunks and
    whatever they wrote to standard error, and closed with the same code
    give the same result. *)
Theorem probe_depends_on_output_only (evs1 evs2 : list ChildEvent)
    (code : option Z) (sig1 sig2 : option string) :
  probe_events host1 = evs1 ++ [OnClose code sig1] ->
  probe_events host2 = evs2 ++ [OnClose code sig2] ->
  forallb running evs1 = true ->
  forallb running evs2 = true ->
  stdout_of evs1 = stdout_of evs2 ->
  snd (getAnchorCommandVersion host1) = snd (getAnchorCommandVersion host2).
Proof.
  intros Hev1 Hev2 Hrun1 Hrun2 Hout.
  rewrite (probe_closed _ _ _ _ Hrun1 Hev1), (probe_closed _ _ _ _ Hrun2 Hev2).
  rewrite Hout. destruct code as [[|n|n]|]; reflexivity.
Qed.

(** X18: the manifest lookup looks at the [anchor-lang] entry only: adding,
    replacing or removing any other dependency of the manifest leaves its
    result as it was. *)
Theorem lookup_ignores_other_dependencies (path text1 text2 : string)
    (parsed1 parsed2 : CargoToml) (table1 table2 : gmap string Dependency)
    (other : string) (entry : Dependency) :
  readFile host1 path = Fulfilled text1 ->
  parse host1 text1 = Normal parsed1 ->
  readFile host2 path = Fulfilled text2 ->
  parse host2 text2 = Normal parsed2 ->
  dependencies parsed1 = Some table1 ->
  dependencies parsed2 = Some table2 ->
  other <> "anchor-lang" ->
  table2 = <[ other := entry ]> table1 \/ table2 = delete other table1 ->
  snd (getAnchorVersionInToml host2 path)
  = snd (getAnchorVersionInToml host1 path).
Proof.
  intros Hread1 Hparse1 Hread2 Hparse2 Ht1 Ht2 Hne Hdeps.
  rewrite (toml_lookup _ _ _ _ Hread1 Hparse1), Ht1.
  rewrite (toml_lookup _ _ _ _ Hread2 Hparse2), Ht2. cbn [snd].
  destruct Hdeps as [-> | ->].
  - now rewrite lookup_insert_ne.
  - now rewrite lookup_delete_ne.
Qed.

End TwoHosts.

(** ** The further properties on concrete runs *)

Module MoreWitnesses.
Import JsString Sample Cases.

Lemma parseCargoToml_read_failure_witness :
  parseCargoToml unreadable "program/Cargo.toml"
  = ([ReadFile "program/Cargo.toml";
      LogError ("Failed to read Cargo.toml at " +:+ quote +:+ "%s" +:+ quote
                  +:+ newline)
        [VString "program/Cargo.toml"; enoent_file]],
     Rejected enoent_file)
  /\
  getAnchorVersionInToml unreadable "program/Cargo.toml"
  = (fst (parseCargoToml unreadable "program/Cargo.toml"),
     Rejected enoent_file).
Proof.
  apply (parseCargoToml_read_failure unreadable "program/Cargo.toml"
           enoent_file).
  reflexivity.
Defined.

Lemma parseCargoToml_parse_failure_witness :
  parseCargoToml unparsable "program/Cargo.toml"
  = ([ReadFile "program/Cargo.toml";
      LogError ("Failed to parse Cargo.toml:" +:+ newline +:+ "%s" +:+ newline
                  +:+ "%s")
        [VString "[dependencies"; syntax_error]],
     Rejected syntax_error)
  /\
  getAnchorVersionInToml unparsable "program/Cargo.toml"
  = (fst (parseCargoToml unparsable "program/Cargo.toml"),
     Rejected syntax_error).
Proof.
  apply (parseCargoToml_parse_failure unparsable "program/Cargo.toml"
           "[dependencies" syntax_error); reflexivity.
Defined.

Lemma handleAnchor_stops_at_probe_witness :
  fst (handleAnchor anchor_missing config None)
    = [Spawn "anchor" ["--version"] {| cwd := None; stdio := Some "pipe" |}]
  /\
  match snd (getAnchorCommandVersion anchor_missing) with
  | Rejected reason =>
      snd (handleAnchor anchor_missing config None) = Rejected reason
  | _ => snd (handleAnchor anchor_missing config None) = Pending
  end.
Proof.
  apply (handleAnchor_stops_at_probe anchor_missing config None).
  intros v H. vm_compute in H. discriminate H.
Defined.

Lemma handleAnchor_stops_at_manifest_witness :
  snd (handleAnchor unreadable config None) = Rejected enoent_file /\
  filter is_spawn (fst (handleAnchor unreadable config None))
    = [Spawn "anchor" ["--version"] {| cwd := None; stdio := Some "pipe" |}] /\
  filter is_codegen_call (fst (handleAnchor unreadable config None)) = [].
Proof.
  apply (handleAnchor_stops_at_manifest unreadable config None "0.27.0"
           enoent_file); reflexivity.
Defined.

Lemma handle_stops_at_installer_witness :
  filter is_spawn (fst (handleShank asks_then_fails config None)) = []
  /\
  filter is_codegen_call (fst (handleShank asks_then_fails config None)) = []
  /\
  match snd (rustbinMatch asks_then_fails
               (shank_rustbin asks_then_fails config)
               confirmAutoMessageLog) with
  | Rejected reason =>
      snd (handleShank asks_then_fails config None) = Rejected reason
  | _ => snd (handleShank asks_then_fails config None) = Pending
  end.
Proof.
  apply (handle_stops_at_installer asks_then_fails config
           (shank_rustbin asks_then_fails config) (shank_idl_args config)
           (in_program_dir config) None (Some false)).
  intros matched H. discriminate H.
Defined.

Lemma probe_first_error_decides_witness :
  snd (getAnchorCommandVersion anchor_missing)
  = Rejected (probe_error_reason (spawn_error ENOENT "anchor")).
Proof.
  apply (probe_first_error_decides anchor_missing []
           [OnClose (Some (-2)%Z) None] (spawn_error ENOENT "anchor"));
    reflexivity.
Defined.

Lemma probe_pending_without_close_witness :
  snd (getAnchorCommandVersion probe_hangs) = Pending /\
  handleAnchor probe_hangs config None
  = ([Spawn "anchor" ["--version"] {| cwd := None; stdio := Some "pipe" |}],
     Pending).
Proof.
  apply (probe_pending_without_close probe_hangs config None). reflexivity.
Defined.

Lemma probe_reads_printed_version_witness :
  snd (getAnchorCommandVersion probe_chunked)
  = Fulfilled ("0" +:+ "." +:+ "27" +:+ "." +:+ "0").
Proof.
  apply (probe_reads_printed_version probe_chunked
           [StdoutData "anchor-"; StderrData "warning"; StdoutData "cli 0.2";
            StdoutData ("7.0" +:+ newline); OnExit (Some 0%Z) None]
           None "" "0" "27" "0" newline); reflexivity.
Defined.

Lemma probe_fulfils_only_versions_witness :
  reports_version (stdout_of (probe_events agreeing)) "0.27.0".
Proof.
  apply (probe_fulfils_only_versions agreeing "0.27.0"). reflexivity.
Defined.

Lemma output_forwarded_witness :
  filter is_write (fst (handleAnchor agreeing config None))
  = passthrough
      (spawn agreeing "anchor" (anchor_build_args config)
         (in_program_dir config))
  /\
  filter is_write (fst (handleShank agreeing config None))
  = passthrough
      (spawn agreeing (fullPathToBinary shank) (shank_idl_args config)
         (in_program_dir config)).
Proof.
  apply (output_forwarded agreeing config config None "0.27.0"
           (shank_rustbin agreeing config) (shank_idl_args config)
           (in_program_dir config) (Some false) shank "0.0.12");
    split; reflexivity.
Defined.

Lemma spawned_once_witness :
  filter is_spawn (fst (handleAnchor agreeing config None))
  = [Spawn "anchor" ["--version"] {| cwd := None; stdio := Some "pipe" |};
     Spawn "anchor" ["build"; "--idl"; "idl"]
       {| cwd := Some "program"; stdio := None |}]
  /\
  filter is_spawn (fst (handleShank agreeing config None))
  = [Spawn ".crates/bin/shank"
       ["idl"; "--out-dir"; "idl"; "--crate-root"; "program"]
       {| cwd := Some "program"; stdio := None |}].
Proof.
  apply (spawned_once agreeing config config None "0.27.0" shank "0.0.12");
    split; reflexivity.
Defined.

Lemma codegen_only_after_exit_witness :
  (filter is_codegen_call (fst (handleAnchor build_never_exits config None))
     = []
   /\ snd (handleAnchor build_never_exits config None) <> Fulfilled tt)
  /\
  (filter is_codegen_call (fst (handleShank build_never_exits config None))
     = []
   /\ snd (handleShank build_never_exits config None) <> Fulfilled tt).
Proof.
  apply (codegen_only_after_exit build_never_exits config config None "0.27.0"
           (shank_rustbin build_never_exits config) (shank_idl_args config)
           (in_program_dir config) (Some false) shank "0.0.12");
    try (split; reflexivity); reflexivity.
Defined.

Lemma generator_error_rejects_witness :
  snd (handleAnchor build_errs_then_exits config None)
    = Rejected (VError {| name := "Error"; message := "kill EPERM";
                          code := Some "EPERM" |})
  /\
  snd (handleShank build_errs_then_exits config None)
    = Rejected (VError {| name := "Error"; message := "kill EPERM";
                          code := Some "EPERM" |}).
Proof.
  pose proof (generator_error_rejects build_errs_then_exits config config None
                "0.27.0" (shank_rustbin build_errs_then_exits config)
                (shank_idl_args config) (in_program_dir config) (Some false)
                shank "0.0.12" [StdoutData "building"]
                [OnExit (Some 0%Z) None; OnClose (Some 0%Z) None]
                {| name := "Error"; message := "kill EPERM";
                   code := Some "EPERM" |}
                eq_refl) as [HA HS].
  split; [apply HA | apply HS]; try (split; reflexivity); reflexivity.
Defined.

Lemma enhance_failure_skips_generate_witness :
  (filter is_codegen_call (fst (handleAnchor enhance_fails config None))
     = [EnhanceIdl config "0.27.0" "0.27.0"] /\
   snd (handleAnchor enhance_fails config None) = Pending)
  /\
  (filter is_codegen_call (fst (handleShank enhance_fails config None))
     = [EnhanceIdl config "0.0.12" "0.0.12"] /\
   snd (handleShank enhance_fails config None) = Pending).
Proof.
  pose proof (enhance_failure_skips_generate enhance_fails config config None
                "0.27.0" (shank_rustbin enhance_fails config)
                (shank_idl_args config) (in_program_dir config) (Some false)
                shank "0.0.12" [StdoutData "building"]
                [StderrData "done"; OnClose (Some 0%Z) None]
                (Some 0%Z) None eq_refl eq_refl) as [HA HS].
  split; [apply HA | apply HS]; try (split; reflexivity);
    try reflexivity; intros idl H; discriminate H.
Defined.

Lemma probe_depends_on_output_only_witness :
  snd (getAnchorCommandVersion probe_chunked)
  = snd (getAnchorCommandVersion agreeing).
Proof.
  apply (probe_depends_on_output_only probe_chunked agreeing
           [StdoutData "anchor-"; StderrData "warning"; StdoutData "cli 0.2";
            StdoutData ("7.0" +:+ newline); OnExit (Some 0%Z) None]
           [StdoutData ("anchor-cli 0.27.0" +:+ newline);
            OnExit (Some 0%Z) None]
           (Some 0%Z) None None); reflexivity.
Defined.

Lemma lookup_ignores_other_dependencies_witness :
  snd (getAnchorVersionInToml more_dependencies "program/Cargo.toml")
  = snd (getAnchorVersionInToml agreeing "program/Cargo.toml").
Proof.
  apply (lookup_ignores_other_dependencies agreeing more_dependencies
           "program/Cargo.toml" "[dependencies]" "[dependencies]"
           (manifest (DepString "0.27.0"))
           {| dependencies :=
                Some (<[ "solana-program" := DepString "1.14.0" ]>
                        {[ "anchor-lang" := DepString "0.27.0" ]}) |}
           {[ "anchor-lang" := DepString "0.27.0" ]}
           (<[ "solana-program" := DepString "1.14.0" ]>
              {[ "anchor-lang" := DepString "0.27.0" ]})
           "solana-program" (DepString "1.14.0"));
    try reflexivity; [discriminate | left; reflexivity].
Defined.

End MoreWitnesses.
